(** * JunctionMLPEvaluator

    A shallow embedding of
    [modules/prediction/evaluator/vehicle/junction_mlp_evaluator.cc]
    and the properties its specification states about it.

    Conventions of the embedding.
    - A C++ [double] is read as a real number ([R]): arithmetic is exact.
      The sector quantisation, where rounding decides which entries of a
      vector are read and written, is examined a second time on the
      kernel's binary64 numbers, in [Module Binary64].
    - An [int] is a [Z]; a [std::vector<double>] is a [list R]; the
      [std::unordered_map<std::string, double>] is a [gmap string R].
    - Protobuf messages are records with the accessors the evaluator
      calls; an optional sub-message the evaluator tests with [has_*] is
      an [option].
    - [operator[]] on a vector and the indexed accessor of a repeated
      field do no bounds check: an index out of range is undefined
      behaviour, which the embedding reports as [Fault OutOfRange].  A
      failed [CHECK] is [Fault CheckFailed].  The sampling loop of the
      trajectory cost runs on fuel; [Fault OutOfFuel] says the fuel given
      was too small.

    Where the reading of [double] as [R] and the code on binary64 part.
    - The sector of an angle stays in 0 to 11 on [R] and reaches 12 on
      binary64 (C10); the sectors the blending step and the feature
      extraction compute for one exit agree on [R] away from the
      obstacle's own position and differ on binary64 (C5, C6).  The
      statements on the junction feature block and on the blend
      therefore take the sector index as the code computed it.
    - The sample time of the trajectory cost is accumulated, one
      addition of the resolution after the other; on [R] this is the
      multiple of the resolution, on binary64 it is not, and a small
      positive resolution may leave the time where it is.
    - Sums and quotients round on binary64; a quotient by a junction
      range of 0 is an infinity or a NaN there, and 0 on [R].
    - The obstacle and the model are total values: the [CHECK_NOTNULL]
      of lines 63, 145 and 315 have no counterpart.

    Where the claims of the specification are settled.
    - C1 [single_exit_sequence_is_shifted]: what the single-exit
      shortcut appends.
    - C2 [dimension_mismatch_is_not_a_no_op] and
      C3 [missing_position_is_not_a_no_op]: what [Evaluate] does with an
      empty probability or feature vector.
    - C4 [ComputeProbability_ignores_feature_values]: the forward pass;
      [layers_from_feature_values] is the loop over the layers against
      the forward pass of the spec.
    - C5 [blend_reads_past_the_sequence]: the blend of a sector with its
      two neighbours, and the sector index 12.
    - C6 [sector_assignments_disagree]: the two sector computations.
    - C7 [lane_sequence_overwritten_iff_matched]: the assignment to the
      lane sequences.
    - C8 [ego_features_fallback]: the ego features without a pose.
    - C9 [trajectory_cost_nonnegative]: the trajectory cost.
    - C10 [sector_index_reaches_12_on_binary64]: the range of the sector
      index; [junction_sector_range] and [blend_sector_range] are the
      range in exact arithmetic.

    Further properties of the code, in the last part of the file.
    - X1, X2: [ComputeMean], the helper of the anonymous namespace.
    - X3 to X7, X9: what [Evaluate] returns early, logs and leaves as it
      was, when it stops at the check of the history size, and when it
      never ends.
    - X10: the feature vector is extended by all 79 values or not at all.
    - X11 to X16: the junction feature block sector by sector, the
      rotation into the obstacle's frame and the sector of an angle in
      exact arithmetic, and the trajectory cost as the maximum over the
      samples.
    - X17 to X19: the network on the empty input and its later layers.
    - X20: the keys and the values of the exit map. *)

From Stdlib Require Import Reals Lra Lia ZArith.
From Stdlib Require Floats.
From stdpp Require Import base option list gmap strings.

(** ** Outcomes of fallible code *)

Inductive fault : Type :=
| OutOfRange
| CheckFailed
| OutOfFuel.

Inductive outcome (A : Type) : Type :=
| Done (a : A)
| Fault (f : fault).
Arguments Done {A} a.
Arguments Fault {A} f.

#[global] Instance outcome_ret : MRet outcome := λ A a, Done a.
#[global] Instance outcome_bind : MBind outcome :=
  λ A B k m, match m with Done a => k a | Fault f => Fault f end.

(** The monadic left fold that the [for] loops of the evaluator are. *)
Fixpoint foldM {S A : Type} (body : S → A → outcome S) (s : S) (l : list A)
  : outcome S :=
  match l with
  | [] => Done s
  | a :: l' => s' ← body s a; foldM body s' l'
  end.

(** [v[i]]: no bounds check in the source. *)
Definition at_ {A : Type} (v : list A) (i : Z) : outcome A :=
  if bool_decide (0 ≤ i)%Z then
    match v !! Z.to_nat i with
    | Some a => Done a
    | None => Fault OutOfRange
    end
  else Fault OutOfRange.

(** [v[i] = a]. *)
Definition set_at {A : Type} (v : list A) (i : Z) (a : A) : outcome (list A) :=
  if bool_decide (0 ≤ i < Z.of_nat (length v))%Z
  then Done (<[Z.to_nat i := a]> v)
  else Fault OutOfRange.

(** ** The C library on real numbers *)

Module cmath.
Local Open Scope R_scope.

Definition M_PI : R := PI.

(** [std::atan2(y, x)]: the angle of the point [(x, y)], in (-pi, pi],
    and 0 at the origin. *)
Definition atan2 (y x : R) : R :=
  if Rlt_dec 0 x then atan (y / x)
  else if Rlt_dec x 0 then
         if Rle_dec 0 y then atan (y / x) + PI else atan (y / x) - PI
  else if Rlt_dec 0 y then PI / 2
  else if Rlt_dec y 0 then - (PI / 2)
  else 0.

(** [std::hypot(a, b)]. *)
Definition hypot (a b : R) : R := sqrt (a * a + b * b).

(** [std::max(a, b)] returns [b] when [a < b] and [a] otherwise. *)
Definition max (a b : R) : R := if Rlt_dec a b then b else a.

(** [std::floor] followed by [static_cast<int>]. *)
Definition floor (v : R) : Z := Zfloor v.

End cmath.

(** ** Messages *)

Module Point3D.
Record t : Type := mk { x : R; y : R }.
Definition origin : t := mk 0 0.
End Point3D.

Record JunctionExit : Type := {
  exit_position : Point3D.t;
  exit_heading : R;
  exit_lane_id : string
}.

Record JunctionFeature : Type := {
  junction_id : string;
  junction_range : R;
  junction_exit : list JunctionExit;
  junction_mlp_probability : list R
}.

Record LaneSegment : Type := { lane_id : string }.

Record LaneSequence : Type := {
  lane_segment : list LaneSegment;
  probability : R
}.

Record LaneGraph : Type := { lane_sequence : list LaneSequence }.

(** [position] and [junction_feature] are the two sub-messages whose
    presence the evaluator tests; the other fields are read through
    their accessors, which give the default when the field is unset. *)
Record Feature : Type := {
  IsInitialized : bool;
  position : option Point3D.t;
  raw_velocity : Point3D.t;
  velocity_heading : R;
  speed : R;
  acc : R;
  junction_feature : option JunctionFeature;
  lane_graph : LaneGraph
}.

Record Obstacle : Type := {
  id : Z;
  history_size : Z;
  latest_feature : Feature
}.

(** What [position()] returns: the default message when unset. *)
Definition position_of (f : Feature) : Point3D.t :=
  default Point3D.origin (position f).

(** What [junction_feature().junction_range()] returns. *)
Definition junction_range_of (f : Feature) : R :=
  from_option junction_range 0%R (junction_feature f).

Definition set_probability (p : R) (s : LaneSequence) : LaneSequence :=
  {| lane_segment := lane_segment s; probability := p |}.

Definition add_junction_mlp_probability (probs : list R) (jf : JunctionFeature)
  : JunctionFeature :=
  {| junction_id := junction_id jf;
     junction_range := junction_range jf;
     junction_exit := junction_exit jf;
     junction_mlp_probability := junction_mlp_probability jf ++ probs |}.

Definition with_junction_feature (jf : JunctionFeature) (f : Feature) : Feature :=
  {| IsInitialized := IsInitialized f;
     position := position f;
     raw_velocity := raw_velocity f;
     velocity_heading := velocity_heading f;
     speed := speed f;
     acc := acc f;
     junction_feature := Some jf;
     lane_graph := lane_graph f |}.

Definition with_lane_graph (g : LaneGraph) (f : Feature) : Feature :=
  {| IsInitialized := IsInitialized f;
     position := position f;
     raw_velocity := raw_velocity f;
     velocity_heading := velocity_heading f;
     speed := speed f;
     acc := acc f;
     junction_feature := junction_feature f;
     lane_graph := g |}.

Definition with_latest_feature (f : Feature) (o : Obstacle) : Obstacle :=
  {| id := id o; history_size := history_size o; latest_feature := f |}.

(** The network: [FnnVehicleModel] and its layers. *)
Inductive ActivationFunc : Type := RELU | TANH | SIGMOID | SOFTMAX.

Record Layer : Type := {
  layer_input_weight : list (list R);   (* rows(row).columns(col) *)
  layer_bias : list R;                  (* columns(col) *)
  layer_activation_func : ActivationFunc
}.

Record FnnVehicleModel : Type := {
  dim_input : Z;
  num_layer : Z;
  layer : list Layer
}.

(** The ego pose as the pose container hands it out. *)
Record PerceptionObstacle : Type := {
  ego_position : Point3D.t;
  ego_velocity : Point3D.t
}.

(** The command line flags the evaluator reads. *)
Record Flags : Type := {
  FLAGS_prediction_offline_mode : Z;
  FLAGS_prediction_trajectory_time_resolution : R
}.

(** ** Collaborators outside this file

    The evaluator calls helpers of [prediction_util], [common::math] and
    [Vec2d] whose code is not part of this file.  They are an interface
    here: every property that does not say what a helper computes is
    proved for all implementations of it. *)

Definition Coeffs : Type := R * R * R * R.

Class PredictionUtil : Type := {
  (* apollo::common::math::AngleDiff(from, to) *)
  AngleDiff : R → R → R;
  (* math_util::ComputePolynomial<3>(start_state, end_state, param) *)
  ComputePolynomial : R * R → R * R → R → Coeffs;
  (* math_util::EvaluateCubicPolynomial(coefs, t, order) *)
  EvaluateCubicPolynomial : Coeffs → R → Z → R;
  (* math_util::Relu, math_util::Sigmoid *)
  Relu : R → R;
  Sigmoid : R → R;
  (* math_util::Softmax(value, flag) *)
  Softmax : list R → bool → list R;
  (* what a Vec2d holds after v.rotate(angle) *)
  Vec2d_rotate : R * R → R → R * R
}.

Module spec_util.
Local Open Scope R_scope.

(** Modelled from the spec: [AngleDiff] is absent from the sources; the
    spec calls it the signed smallest angular difference between the two
    headings, normalized to (-pi, pi]. *)
Definition AngleDiff (from to : R) : R :=
  let d := to - from in
  d + 2 * PI * IZR (Zfloor ((PI - d) / (2 * PI))).

(** Modelled from the spec: [ComputePolynomial<3>] is absent from the
    sources; the spec calls it the two-point Hermite cubic fit of one
    axis, from start position and velocity to end position and velocity
    over the duration [param]. *)
Definition ComputePolynomial (start_state end_state : R * R) (param : R) : Coeffs :=
  let c0 := start_state.1 in
  let c1 := start_state.2 in
  let m0 := end_state.1 - start_state.1 - start_state.2 * param in
  let m1 := end_state.2 - start_state.2 in
  let c3 := (m1 * param - 2 * m0) / (param * param * param) in
  let c2 := (m1 - 3 * c3 * param * param) / param * / 2 in
  (c0, c1, c2, c3).

(** Modelled from the spec: [EvaluateCubicPolynomial] is absent from the
    sources; the spec has it give the derivative of the given order of
    the fitted cubic at [t]. *)
Definition EvaluateCubicPolynomial (coefs : Coeffs) (t : R) (order : Z) : R :=
  let '(c0, c1, c2, c3) := coefs in
  if bool_decide (order = 0%Z) then ((c3 * t + c2) * t + c1) * t + c0
  else if bool_decide (order = 1%Z) then (3 * c3 * t + 2 * c2) * t + c1
  else if bool_decide (order = 2%Z) then 6 * c3 * t + 2 * c2
  else if bool_decide (order = 3%Z) then 6 * c3
  else 0.

(** Modelled from the spec: RELU(x) = max(0, x). *)
Definition Relu (v : R) : R := cmath.max 0 v.

(** Modelled from the spec: SIGMOID(x) = 1 / (1 + e^-x). *)
Definition Sigmoid (v : R) : R := 1 / (1 + exp (- v)).

(** Modelled from the spec: softmax exponentiates and normalizes by the
    sum.  The spec does not say what the second argument selects. *)
Definition Softmax (value : list R) (flag : bool) : list R :=
  let e := exp <$> value in
  let sum := foldr Rplus 0 e in
  (λ v, v / sum) <$> e.

(** Modelled from the spec: the ego velocity is rotated into the
    obstacle's heading-aligned frame. *)
Definition Vec2d_rotate (v : R * R) (angle : R) : R * R :=
  (v.1 * cos angle - v.2 * sin angle, v.1 * sin angle + v.2 * cos angle).

End spec_util.

(** The helpers as the spec describes them, as one implementation of the
    interface. *)
Definition spec_helpers : PredictionUtil := {|
  AngleDiff := spec_util.AngleDiff;
  ComputePolynomial := spec_util.ComputePolynomial;
  EvaluateCubicPolynomial := spec_util.EvaluateCubicPolynomial;
  Relu := spec_util.Relu;
  Sigmoid := spec_util.Sigmoid;
  Softmax := spec_util.Softmax;
  Vec2d_rotate := spec_util.Vec2d_rotate
|}.

(** ** The mean of a range

    [ComputeMean], lines 42-50, of the file's anonymous namespace.  The
    indices are [size_t], read as natural numbers; [count] is an [int],
    read as a [Z].  The function is written once for any number type,
    given the value [0.0], the addition of line 46 and the division of
    the sum by the count of line 49, and read on the real numbers below
    and on binary64 in [Module Binary64]. *)

Section ComputeMean.
Context {D : Type} (zero : D) (add : D → D → D) (div_count : D → Z → D).

(** The loop of lines 45-48 at index [i], where [rest] holds the entries
    of [nums] from index [i] on: the test [i < nums.size()] is whether
    [rest] has an entry. *)
Fixpoint ComputeMean_loop (rest : list D) (i end_ : nat) (sum : D) (count : Z)
  : D * Z :=
  match rest with
  | [] => (sum, count)
  | v :: rest' =>
    if bool_decide (i ≤ end_)%nat
    then ComputeMean_loop rest' (S i) end_ (add sum v) (count + 1)%Z
    else (sum, count)
  end.

Definition ComputeMean_in (nums : list D) (start end_ : nat) : D :=
  let '(sum, count) := ComputeMean_loop (drop start nums) start end_ zero 0%Z in
  if bool_decide (count = 0%Z) then zero else div_count sum count.

End ComputeMean.

Definition ComputeMean (nums : list R) (start end_ : nat) : R :=
  ComputeMean_in 0%R Rplus (λ sum count, (sum / IZR count)%R) nums start end_.

(** ** The evaluator *)

(** Modelled from the spec: the three block sizes are constants of the
    evaluator's header, which is absent from the sources; the spec gives
    3 obstacle values, 4 ego values and 72 = 12 x 6 junction values. *)
Definition OBSTACLE_FEATURE_SIZE : nat := 3.
Definition EGO_VEHICLE_FEATURE_SIZE : nat := 4.
Definition JUNCTION_FEATURE_SIZE : nat := 72.

(** What [FeatureOutput::InsertDataForLearning] is handed in offline
    mode. *)
Definition DataForLearning : Type := Feature * list R * string.

Section Evaluator.
Context {util : PredictionUtil}.
Local Open Scope R_scope.

(** The sector of an angle, lines 121-122 and again lines 270-271:
    [d_idx = (angle / (2.0 * M_PI)) * 12.0] and
    [idx = static_cast<int>(floor(d_idx >= 0 ? d_idx : d_idx + 12))]. *)
Definition sector_index (angle : R) : Z :=
  let d_idx := (angle / (2 * cmath.M_PI)) * 12 in
  cmath.floor (if Rge_dec d_idx 0 then d_idx else d_idx + 12).

Definition SetObstacleFeatureValues (obstacle : Obstacle) : list R :=
  let feature := latest_feature obstacle in
  match position feature with
  | None => []
  | Some _ => [speed feature; acc feature; junction_range_of feature]
  end.

(** [ego_pose_container] is what the container manager returns for the
    localization adapter: [None] is the null pointer. *)
Definition SetEgoVehicleFeatureValues (ego_pose_container : option PerceptionObstacle)
    (obstacle : Obstacle) : outcome (list R) :=
  match ego_pose_container with
  | None => Done [100; 100; 0; 0]
  | Some ego_pose_obstacle =>
    let ego_position := ego_position ego_pose_obstacle in
    let ego_velocity := ego_velocity ego_pose_obstacle in
    if bool_decide (history_size obstacle > 0)%Z then
      let obstacle_feature := latest_feature obstacle in
      let ego_relative_position :=
        (Point3D.x ego_position - Point3D.x (position_of obstacle_feature),
         Point3D.y ego_position - Point3D.y (position_of obstacle_feature)) in
      let ego_relative_velocity :=
        Vec2d_rotate (Point3D.x ego_velocity, Point3D.y ego_velocity)
                     (- velocity_heading obstacle_feature) in
      Done [ego_relative_position.1; ego_relative_position.2;
            ego_relative_velocity.1; ego_relative_velocity.2]
    else Fault CheckFailed
  end.

(** The sampling loop of lines 282-293, from time [t] with the maximum
    [cost] so far. *)
Fixpoint trajectory_cost (fuel : nat) (resolution : R) (x_coeffs y_coeffs : Coeffs)
    (exit_time t cost : R) : outcome R :=
  match fuel with
  | O => Fault OutOfFuel
  | S fuel' =>
    if Rle_dec t exit_time then
      let x_1 := EvaluateCubicPolynomial x_coeffs t 1 in
      let x_2 := EvaluateCubicPolynomial x_coeffs t 2 in
      let y_1 := EvaluateCubicPolynomial y_coeffs t 1 in
      let y_2 := EvaluateCubicPolynomial y_coeffs t 2 in
      trajectory_cost fuel' resolution x_coeffs y_coeffs exit_time
        (t + resolution)
        (cmath.max cost (Rabs (x_1 * y_2 - y_1 * x_2) / cmath.hypot x_1 y_1))
    else Done cost
  end.

(** The displacement of an exit in the obstacle-heading frame,
    lines 263-266. *)
Definition exit_displacement (feature : Feature) (heading : R) (e : JunctionExit)
  : R * R :=
  let x := Point3D.x (exit_position e) - Point3D.x (position_of feature) in
  let y := Point3D.y (exit_position e) - Point3D.y (position_of feature) in
  (cos (- heading) * x - sin (- heading) * y,
   sin (- heading) * x + cos (- heading) * y).

(** The cost of reaching an exit, lines 272-293. *)
Definition exit_cost (fuel : nat) (resolution : R) (feature : Feature)
    (diff_x diff_y diff_heading : R) : outcome R :=
  let speed := cmath.max 0.1 (speed feature) in
  let exit_time := cmath.hypot diff_x diff_y / speed in
  let x_coeffs :=
    ComputePolynomial (0, speed) (diff_x, cos diff_heading * speed) exit_time in
  let y_coeffs :=
    ComputePolynomial (0, 0) (diff_y, sin diff_heading * speed) exit_time in
  trajectory_cost fuel resolution x_coeffs y_coeffs exit_time 0 0.

(** The sector an exit is written to, lines 269-271. *)
Definition junction_sector (feature : Feature) (e : JunctionExit) : Z :=
  let heading :=
    cmath.atan2 (Point3D.y (raw_velocity feature)) (Point3D.x (raw_velocity feature)) in
  let d := exit_displacement feature heading e in
  sector_index (cmath.atan2 d.2 d.1).

(** One turn of the loop over the exits, lines 261-300. *)
Definition junction_exit_step (fuel : nat) (resolution : R) (feature : Feature)
    (heading junction_range : R) (feature_values : list R) (e : JunctionExit)
  : outcome (list R) :=
  let d := exit_displacement feature heading e in
  let diff_x := d.1 in
  let diff_y := d.2 in
  let diff_heading := AngleDiff heading (exit_heading e) in
  let angle := cmath.atan2 diff_y diff_x in
  let idx := sector_index angle in
  cost ← exit_cost fuel resolution feature diff_x diff_y diff_heading;
  v ← set_at feature_values (idx * 6) 1;
  v ← set_at v (idx * 6 + 1) (diff_x / junction_range);
  v ← set_at v (idx * 6 + 2) (diff_y / junction_range);
  v ← set_at v (idx * 6 + 3) (sqrt (diff_x * diff_x + diff_y * diff_y) / junction_range);
  v ← set_at v (idx * 6 + 4) diff_heading;
  set_at v (idx * 6 + 5) cost.

(** The twelve default sectors, lines 251-258. *)
Definition default_sectors : list R :=
  mjoin (replicate 12 [0; 1; 1; 1; 0; 0]).

Definition SetJunctionFeatureValues (fuel : nat) (flags : Flags) (obstacle : Obstacle)
  : outcome (list R) :=
  let feature := latest_feature obstacle in
  match position feature with
  | None => Done []
  | Some _ =>
    let heading :=
      cmath.atan2 (Point3D.y (raw_velocity feature)) (Point3D.x (raw_velocity feature)) in
    match junction_feature feature with
    | None => Done []
    | Some jf =>
      foldM (junction_exit_step fuel
               (FLAGS_prediction_trajectory_time_resolution flags)
               feature heading (junction_range jf))
            default_sectors (junction_exit jf)
    end
  end.

(** [feature_values] is the vector the caller passes; an early return
    leaves it as it was. *)
Definition ExtractFeatureValues (fuel : nat) (flags : Flags)
    (ego_pose_container : option PerceptionObstacle) (obstacle : Obstacle)
    (feature_values : list R) : outcome (list R) :=
  let obstacle_feature_values := SetObstacleFeatureValues obstacle in
  if bool_decide (length obstacle_feature_values ≠ OBSTACLE_FEATURE_SIZE)
  then Done feature_values
  else
    ego_vehicle_feature_values ←
      SetEgoVehicleFeatureValues ego_pose_container obstacle;
    if bool_decide (length ego_vehicle_feature_values ≠ EGO_VEHICLE_FEATURE_SIZE)
    then Done feature_values
    else
      junction_feature_values ← SetJunctionFeatureValues fuel flags obstacle;
      if bool_decide (length junction_feature_values ≠ JUNCTION_FEATURE_SIZE)
      then Done feature_values
      else Done (feature_values ++ obstacle_feature_values
                   ++ ego_vehicle_feature_values ++ junction_feature_values).

(** One output neuron of a layer, lines 333-344. *)
Definition neuron_output (l : Layer) (layer_input : list R) (col : Z) : outcome R :=
  bias ← at_ (layer_bias l) col;
  sum ← foldM (λ neuron_output row,
                 r ← at_ (layer_input_weight l) row;
                 weight ← at_ r col;
                 input ← at_ layer_input row;
                 Done (neuron_output + input * weight))
              bias (seqZ 0 (Z.of_nat (length (layer_input_weight l))));
  Done (match layer_activation_func l with
        | RELU => Relu sum
        | SIGMOID => Sigmoid sum
        | TANH => tanh sum
        | SOFTMAX => sum
        end).

(** One turn of the loop over the layers, lines 325-351, on the pair
    [(layer_input, layer_output)]. *)
Definition layer_step (model : FnnVehicleModel) (st : list R * list R) (i : Z)
  : outcome (list R * list R) :=
  let '(layer_input, layer_output) :=
    if bool_decide (i > 0)%Z then (st.2, []) else st in
  l ← at_ (layer model) i;
  row0 ← at_ (layer_input_weight l) 0;
  layer_output ←
    foldM (λ out col, v ← neuron_output l layer_input col; Done (out ++ [v]))
          layer_output (seqZ 0 (Z.of_nat (length row0)));
  Done (layer_input,
        match layer_activation_func l with
        | SOFTMAX => Softmax layer_output false
        | _ => layer_output
        end).

(** [layer_input] starts as an empty vector with reserved capacity and
    [layer_output] as an empty vector, lines 322-324. *)
Definition ComputeProbability (model : FnnVehicleModel) (feature_values : list R)
  : outcome (list R) :=
  if bool_decide (dim_input model ≠ Z.of_nat (length feature_values))
  then Done []
  else
    st ← foldM (layer_step model) ([], []) (seqZ 0 (num_layer model));
    Done st.2.

(** The sector the blending step looks up for an exit, lines 114-122. *)
Definition blend_sector (feature : Feature) (e : JunctionExit) : Z :=
  let x := Point3D.x (exit_position e) - Point3D.x (position_of feature) in
  let y := Point3D.y (exit_position e) - Point3D.y (position_of feature) in
  let angle :=
    cmath.atan2 y x
    - cmath.atan2 (Point3D.y (raw_velocity feature)) (Point3D.x (raw_velocity feature)) in
  sector_index angle.

(** One turn of the loop over the exits, lines 112-128. *)
Definition blend_exit (feature : Feature) (probability : list R)
    (junction_exit_prob : gmap string R) (e : JunctionExit)
  : outcome (gmap string R) :=
  let idx := blend_sector feature e in
  let prev_idx := if bool_decide (idx = 0%Z) then 11%Z else (idx - 1)%Z in
  let post_idx := if bool_decide (idx = 11%Z) then 0%Z else (idx + 1)%Z in
  p ← at_ probability idx;
  p_prev ← at_ probability prev_idx;
  p_post ← at_ probability post_idx;
  Done (<[exit_lane_id e := p * 0.5 + p_prev * 0.25 + p_post * 0.25]>
          junction_exit_prob).

(** The scan of one lane sequence, lines 133-139. *)
Definition assign_lane_sequence (junction_exit_prob : gmap string R)
    (s : LaneSequence) : LaneSequence :=
  foldl (λ s seg,
           match junction_exit_prob !! lane_id seg with
           | Some p => set_probability p s
           | None => s
           end)
        s (lane_segment s).

(** The loop over the lane sequences, lines 130-140. *)
Definition assign_lane_graph (junction_exit_prob : gmap string R) (g : LaneGraph)
  : LaneGraph :=
  {| lane_sequence := assign_lane_sequence junction_exit_prob <$> lane_sequence g |}.

(** The probability sequence of lines 89-96. *)
Definition exit_probability (model : FnnVehicleModel) (jf : JunctionFeature)
    (feature_values : list R) : outcome (list R) :=
  if bool_decide (Z.of_nat (length (junction_exit jf)) > 1)%Z
  then ComputeProbability model feature_values
  else foldM (λ probability i,
                v ← at_ feature_values (3 + 6 * i);
                Done (probability ++ [v]))
             [] (seqZ 0 12).

(** [Evaluate] returns the obstacle as it leaves it, and what it handed
    to the feature logger, if anything. *)
Definition Evaluate (fuel : nat) (flags : Flags) (model : FnnVehicleModel)
    (ego_pose_container : option PerceptionObstacle) (obstacle : Obstacle)
  : outcome (Obstacle * option DataForLearning) :=
  let latest_feature := latest_feature obstacle in
  if negb (IsInitialized latest_feature) then Done (obstacle, None)
  else
    match junction_feature latest_feature with
    | None => Done (obstacle, None)
    | Some jf =>
      if bool_decide (Z.of_nat (length (junction_exit jf)) < 1)%Z
      then Done (obstacle, None)
      else
        feature_values ←
          ExtractFeatureValues fuel flags ego_pose_container obstacle [];
        if bool_decide (FLAGS_prediction_offline_mode flags = 2%Z)
        then Done (obstacle, Some (latest_feature, feature_values, "junction"%string))
        else
          probability ← exit_probability model jf feature_values;
          let jf := add_junction_mlp_probability probability jf in
          let latest_feature := with_junction_feature jf latest_feature in
          let lane_graph := lane_graph latest_feature in
          if bool_decide (length (lane_sequence lane_graph) = 0%nat)
          then Done (with_latest_feature latest_feature obstacle, None)
          else
            junction_exit_prob ←
              foldM (blend_exit latest_feature probability) ∅ (junction_exit jf);
            Done (with_latest_feature
                    (with_lane_graph
                       (assign_lane_graph junction_exit_prob lane_graph)
                       latest_feature)
                    obstacle,
                  None)
    end.

End Evaluator.

(** ** The sector quantisation on binary64

    The same two lines, 270-271 (and 121-122), computed on the kernel's
    binary64 numbers with round-to-nearest, as the compiled evaluator
    computes them. *)

Module Binary64.
Import PrimFloat SpecFloat FloatOps.

(** [M_PI], the double nearest to pi. *)
Definition M_PI : float := 0x1.921fb54442d18p+1%float.

(** [static_cast<int>(floor(v))]; casting an infinity or a NaN is
    undefined. *)
Definition floor (v : float) : option Z :=
  match Prim2SF v with
  | S754_zero _ => Some 0%Z
  | S754_finite s m e => Some (Z.shiftl (if s then Z.neg m else Z.pos m) e)
  | S754_infinity _ | S754_nan => None
  end.

Definition sector_index (angle : float) : option Z :=
  let d_idx := ((angle / (2 * M_PI)) * 12)%float in
  floor (if (0 <=? d_idx)%float then d_idx else (d_idx + 12)%float).

(** The angle the blending step quantises, lines 118-120, and its
    sector, lines 121-122, given the two values [std::atan2] returned:
    for the displacement of the exit and for the raw velocity. *)
Definition blend_sector (atan2_exit atan2_velocity : float) : option Z :=
  sector_index (atan2_exit - atan2_velocity)%float.

(** The rotation of lines 265-266, given the values [c] and [s] that
    [std::cos(-heading)] and [std::sin(-heading)] returned. *)
Definition exit_displacement (c s x y : float) : float * float :=
  (c * x - s * y, s * x + c * y)%float.

(** The conversion of an [int] to a [double]. *)
Definition of_int (z : Z) : float := of_uint63 (Uint63.of_Z z).

(** [ComputeMean], lines 42-50, on binary64. *)
Definition ComputeMean (nums : list float) (start end_ : nat) : float :=
  ComputeMean_in 0%float add (λ sum count, (sum / of_int count)%float)
    nums start end_.

End Binary64.

(** ** Vocabulary of the statements *)

(** A feature block after the six writes of lines 294-300 to sector
    [idx]. *)
Definition write_sector (v : list R) (idx : Z) (present dx dy dist dh cost : R)
  : list R :=
  let n := Z.to_nat (idx * 6) in
  <[(n + 5)%nat := cost]>
    (<[(n + 4)%nat := dh]>
       (<[(n + 3)%nat := dist]>
          (<[(n + 2)%nat := dy]>
             (<[(n + 1)%nat := dx]>
                (<[n := present]> v))))).

(** Field [k] of sector [i] of a junction feature block. *)
Definition sector_field (block : list R) (i k : nat) : option R :=
  block !! (i * 6 + k)%nat.

(** The [norm_dist] field (the 4th of 6) of the twelve sectors, in
    order. *)
Definition norm_dist_sequence (block : list R) : list (option R) :=
  (λ i, sector_field block i 3) <$> seq 0 12.

(** The forward pass as the spec words it: the first layer reads the
    feature vector, every later layer the output of the layer before it;
    a neuron is its bias plus the sum over the rows of
    input[row] * weight[row][col]; RELU, SIGMOID and TANH apply per
    neuron, SOFTMAX replaces the raw outputs of the layer afterwards. *)
Definition spec_neuron (l : Layer) (input : list R) (col : nat) : R :=
  foldl (λ sum '(x, row), (sum + x * default 0 (row !! col))%R)
        (default 0%R (layer_bias l !! col))
        (zip input (layer_input_weight l)).

Definition spec_layer {util : PredictionUtil} (l : Layer) (input : list R) : list R :=
  let raw :=
    spec_neuron l input <$> seq 0 (length (default [] (head (layer_input_weight l)))) in
  match layer_activation_func l with
  | RELU => Relu <$> raw
  | SIGMOID => Sigmoid <$> raw
  | TANH => tanh <$> raw
  | SOFTMAX => Softmax raw false
  end.

Definition spec_forward {util : PredictionUtil} (model : FnnVehicleModel)
    (feature_values : list R) : list R :=
  if bool_decide (dim_input model ≠ Z.of_nat (length feature_values)) then []
  else foldl (λ input l, spec_layer l input) feature_values
             (take (Z.to_nat (num_layer model)) (layer model)).

(** The activation a layer applies to each neuron. *)
Definition per_neuron {util : PredictionUtil} (l : Layer) (v : R) : R :=
  match layer_activation_func l with
  | RELU => Relu v
  | SIGMOID => Sigmoid v
  | TANH => tanh v
  | SOFTMAX => v
  end.

(** A layer fits an input: its weight matrix has a first row, every row
    has a weight for each of the first row's columns, so has the bias,
    and the input has a value for every row. *)
Definition layer_fits (l : Layer) (input : list R) : Prop :=
  let cols := length (default [] (head (layer_input_weight l))) in
  layer_input_weight l ≠ []
  ∧ (∀ row, row ∈ layer_input_weight l → (cols ≤ length row)%nat)
  ∧ (cols ≤ length (layer_bias l))%nat
  ∧ (length (layer_input_weight l) ≤ length input)%nat.

(** Every layer of a list fits the input it is given by the layers
    before it. *)
Fixpoint layers_fit {util : PredictionUtil} (input : list R) (layers : list Layer)
  : Prop :=
  match layers with
  | [] => True
  | l :: ls => layer_fits l input ∧ layers_fit (spec_layer l input) ls
  end.

(** The entries [nums[start]] to [nums[end]], as far as [nums] has them. *)
Definition mean_window {D : Type} (nums : list D) (start end_ : nat) : list D :=
  take (S end_ - start) (drop start nums).

(** The six fields of sector [k] of a junction feature block, in order:
    presence, [norm_dx], [norm_dy], [norm_dist], heading difference and
    cost. *)
Definition sector_values (block : list R) (k : nat) : list (option R) :=
  sector_field block k <$> seq 0 6.

(** What lines 263-293 compute for one exit: the sector index [idx] and
    the five values that lines 294-300 write beside the presence flag.
    The index is taken as the code computed it, whatever the arithmetic:
    nothing below assumes that it lies in 0 to 11. *)
Record exit_entry : Type := {
  entry_idx : Z;
  entry_dx : R;
  entry_dy : R;
  entry_dist : R;
  entry_dh : R;
  entry_cost : R
}.

(** The six writes of lines 294-300 for one exit. *)
Definition write_entry (feature_values : list R) (w : exit_entry)
  : outcome (list R) :=
  v ← set_at feature_values (entry_idx w * 6) 1%R;
  v ← set_at v (entry_idx w * 6 + 1) (entry_dx w);
  v ← set_at v (entry_idx w * 6 + 2) (entry_dy w);
  v ← set_at v (entry_idx w * 6 + 3) (entry_dist w);
  v ← set_at v (entry_idx w * 6 + 4) (entry_dh w);
  set_at v (entry_idx w * 6 + 5) (entry_cost w).

(** The block of lines 251-258 after the writes for the exits, in the
    order of the junction's exit list. *)
Definition write_entries (ws : list exit_entry) : outcome (list R) :=
  foldM write_entry default_sectors ws.

(** The six values of an entry's sector after its writes. *)
Definition entry_values (w : exit_entry) : list R :=
  [1%R; entry_dx w; entry_dy w; entry_dist w; entry_dh w; entry_cost w].

(** What one turn of the loop over the exits computes for an exit,
    lines 263-293, given the cost of its trajectory. *)
Definition entry_of {util : PredictionUtil} (feature : Feature)
    (heading junction_range : R) (e : JunctionExit) (cost : R) : exit_entry :=
  let d := exit_displacement feature heading e in
  {| entry_idx := sector_index (cmath.atan2 d.2 d.1);
     entry_dx := (d.1 / junction_range)%R;
     entry_dy := (d.2 / junction_range)%R;
     entry_dist := (sqrt (d.1 * d.1 + d.2 * d.2) / junction_range)%R;
     entry_dh := AngleDiff heading (exit_heading e);
     entry_cost := cost |}.

(** Lines 123-127 for an exit of lane id [lane] whose sector index, as
    lines 114-122 computed it, is [idx]. *)
Definition blend_at (probability : list R) (junction_exit_prob : gmap string R)
    (lane : string) (idx : Z) : outcome (gmap string R) :=
  let prev_idx := if bool_decide (idx = 0%Z) then 11%Z else (idx - 1)%Z in
  let post_idx := if bool_decide (idx = 11%Z) then 0%Z else (idx + 1)%Z in
  p ← at_ probability idx;
  p_prev ← at_ probability prev_idx;
  p_post ← at_ probability post_idx;
  Done (<[lane := (p * 0.5 + p_prev * 0.25 + p_post * 0.25)%R]>
          junction_exit_prob).




(** ** Sample inputs *)

Module Samples.
Local Open Scope R_scope.

Definition feature_at (pos : option Point3D.t) (vel : Point3D.t) (v : R)
    (jf : option JunctionFeature) (g : LaneGraph) : Feature :=
  {| IsInitialized := true;
     position := pos;
     raw_velocity := vel;
     velocity_heading := 0;
     speed := v;
     acc := 0;
     junction_feature := jf;
     lane_graph := g |}.

Definition exit_at (px py heading : R) (lane : string) : JunctionExit :=
  {| exit_position := Point3D.mk px py;
     exit_heading := heading;
     exit_lane_id := lane |}.

Definition no_lanes : LaneGraph := {| lane_sequence := [] |}.

(** The probability sequence that is 1 in sector 0 and 0 elsewhere. *)
Definition sector0_certain : list R := 1 :: replicate 11 0.

(** An obstacle at the origin moving along the y axis, and an exit whose
    position is the obstacle's own. *)
Definition northbound : Feature :=
  feature_at (Some (Point3D.mk 0 0)) (Point3D.mk 0 1) 1 None no_lanes.
Definition exit_here : JunctionExit := exit_at 0 0 0 "here".

(** An obstacle at the origin moving along the x axis with an exit
    straight ahead, and the same scene moved and scaled. *)
Definition eastbound : Feature :=
  feature_at (Some (Point3D.mk 0 0)) (Point3D.mk 1 0) 1 None no_lanes.
Definition exit_ahead : JunctionExit := exit_at 1 0 0 "ahead".
Definition eastbound_moved : Feature :=
  feature_at (Some (Point3D.mk 5 5)) (Point3D.mk 2 0) 1 None no_lanes.
Definition exit_ahead_moved : JunctionExit := exit_at 7 5 0 "ahead".

(** A lane graph of two sequences: one through lanes "in" and "a",
    one through lane "elsewhere"; and an exit map with the key "a". *)
Definition through_a : LaneSequence :=
  {| lane_segment := [ {| lane_id := "in" |}; {| lane_id := "a" |} ];
     probability := 0 |}.
Definition through_elsewhere : LaneSequence :=
  {| lane_segment := [ {| lane_id := "elsewhere" |} ]; probability := 0.125 |}.
Definition two_sequences : LaneGraph :=
  {| lane_sequence := [through_a; through_elsewhere] |}.
Definition exit_map : gmap string R := {[ "a"%string := 0.5 ]}.

(** A network of one layer with one input and one RELU neuron of
    weight 1 and bias 0. *)
Definition identity_layer : Layer :=
  {| layer_input_weight := [[1]]; layer_bias := [0];
     layer_activation_func := RELU |}.
Definition identity_model : FnnVehicleModel :=
  {| dim_input := 1; num_layer := 1; layer := [identity_layer] |}.

(** An obstacle in a junction with one exit and no position, and one
    with a position, two exits and a lane through the second of them;
    the flags of online prediction; a network that takes 62 inputs. *)
Definition junction_of (exits : list JunctionExit) : JunctionFeature :=
  {| junction_id := "j"; junction_range := 2;
     junction_exit := exits; junction_mlp_probability := [] |}.
Definition obstacle_of (f : Feature) : Obstacle :=
  {| id := 1; history_size := 1; latest_feature := f |}.
Definition exit_left : JunctionExit := exit_at 0 1 0 "a".
Definition unlocated : Obstacle :=
  obstacle_of (feature_at None (Point3D.mk 1 0) 1
                 (Some (junction_of [exit_ahead])) two_sequences).
Definition at_two_exits : Obstacle :=
  obstacle_of (feature_at (Some (Point3D.mk 0 0)) (Point3D.mk 1 0) 1
                 (Some (junction_of [exit_ahead; exit_left])) two_sequences).
Definition at_one_exit : Obstacle :=
  obstacle_of (feature_at (Some (Point3D.mk 0 0)) (Point3D.mk 1 0) 1
                 (Some (junction_of [exit_ahead])) no_lanes).
Definition online : Flags :=
  {| FLAGS_prediction_offline_mode := 0;
     FLAGS_prediction_trajectory_time_resolution := 1 |}.
Definition model_of_62_inputs : FnnVehicleModel :=
  {| dim_input := 62; num_layer := 0; layer := [] |}.

(** Three readings; the flags of offline feature extraction and flags
    with a time resolution of 0; an obstacle outside any junction; an
    obstacle with the one exit of lane "a" and the two lane sequences;
    a network whose only layer has an input and no neuron, and a network
    of two layers. *)
Definition readings : list R := [1; 2; 3].
Definition offline : Flags :=
  {| FLAGS_prediction_offline_mode := 2;
     FLAGS_prediction_trajectory_time_resolution := 1 |}.
Definition zero_resolution : Flags :=
  {| FLAGS_prediction_offline_mode := 0;
     FLAGS_prediction_trajectory_time_resolution := 0 |}.
Definition outside_junction : Obstacle := obstacle_of eastbound.
Definition at_exit_left : Obstacle :=
  obstacle_of (feature_at (Some (Point3D.mk 0 0)) (Point3D.mk 1 0) 1
                 (Some (junction_of [exit_left])) two_sequences).
Definition hollow_layer : Layer :=
  {| layer_input_weight := [[]]; layer_bias := [];
     layer_activation_func := RELU |}.
Definition hollow_model : FnnVehicleModel :=
  {| dim_input := 1; num_layer := 1; layer := [hollow_layer] |}.
Definition two_layer_model : FnnVehicleModel :=
  {| dim_input := 1; num_layer := 2; layer := [identity_layer; identity_layer] |}.

(** An ego pose; the obstacle with two exits without a history, and
    without lane sequences; three entries of the junction feature block,
    the first and the last of them for sector 0. *)
Definition ego_pose : PerceptionObstacle :=
  {| ego_position := Point3D.mk 3 4; ego_velocity := Point3D.mk 1 0 |}.
Definition without_history : Obstacle :=
  {| id := 1; history_size := 0; latest_feature := latest_feature at_two_exits |}.
Definition at_two_exits_without_lanes : Obstacle :=
  obstacle_of (feature_at (Some (Point3D.mk 0 0)) (Point3D.mk 1 0) 1
                 (Some (junction_of [exit_ahead; exit_left])) no_lanes).
Definition entry_at (idx : Z) (cost : R) : exit_entry :=
  {| entry_idx := idx; entry_dx := 0.5; entry_dy := 0.25; entry_dist := 0.75;
     entry_dh := 0; entry_cost := cost |}.
Definition entries : list exit_entry := [entry_at 0 2; entry_at 3 5; entry_at 0 7].

End Samples.

(** * Properties *)

(** ** Outcomes and indexing *)

Lemma at_Done {A : Type} (v : list A) (i : Z) (a : A) :
  at_ v i = Done a ↔ (0 ≤ i)%Z ∧ v !! Z.to_nat i = Some a.
Proof.
  unfold at_. case_bool_decide as Hi.
  - destruct (v !! Z.to_nat i) as [b|]; split.
    + intros [= ->]; auto.
    + intros [_ [= ->]]; reflexivity.
    + discriminate.
    + intros [_ ?]; discriminate.
  - split; [discriminate | intros [? _]; contradiction].
Qed.

Lemma at_nat {A : Type} (v : list A) (n : nat) (a : A) :
  v !! n = Some a → at_ v (Z.of_nat n) = Done a.
Proof. intros H. apply at_Done. rewrite Nat2Z.id. split; [lia | exact H]. Qed.

Lemma at_nil {A : Type} (i : Z) : at_ (@nil A) i = Fault OutOfRange.
Proof. unfold at_. case_bool_decide; [rewrite lookup_nil|]; reflexivity. Qed.

Lemma set_at_Done {A : Type} (v : list A) (i : Z) (a : A) :
  (0 ≤ i < Z.of_nat (length v))%Z →
  set_at v i a = Done (<[Z.to_nat i := a]> v).
Proof. intros H. unfold set_at. rewrite bool_decide_eq_true_2; auto. Qed.

Lemma bind_Done {A B : Type} (a : A) (k : A → outcome B) : (Done a ≫= k) = k a.
Proof. reflexivity. Qed.

Lemma at_middle {A : Type} (pre suf : list A) (a : A) :
  at_ (pre ++ a :: suf) (Z.of_nat (length pre)) = Done a.
Proof. apply at_nat. apply list_lookup_middle. reflexivity. Qed.

Lemma foldM_app {S A : Type} (body : S → A → outcome S) (s : S) (l1 l2 : list A) :
  foldM body s (l1 ++ l2) = (s' ← foldM body s l1; foldM body s' l2).
Proof.
  revert s. induction l1 as [|a l1 IH]; intros s; simpl; [reflexivity|].
  destruct (body s a) as [s'|f]; simpl; [apply IH | reflexivity].
Qed.

(** ** Angles: [atan2] and the sector of an angle *)

Section Geometry.
Local Open Scope R_scope.

Lemma atan_nonpos (t : R) : t <= 0 → atan t <= 0.
Proof.
  intros [H| ->]; [|rewrite atan_0; lra].
  apply atan_increasing in H. rewrite atan_0 in H. lra.
Qed.

Lemma atan_pos (t : R) : 0 < t → 0 < atan t.
Proof. intros H. apply atan_increasing in H. rewrite atan_0 in H. lra. Qed.

Lemma atan2_bound (y x : R) : - PI < cmath.atan2 y x <= PI.
Proof.
  pose proof PI_RGT_0 as Hpi.
  unfold cmath.atan2.
  destruct (Rlt_dec 0 x) as [Hx|Hx].
  - pose proof (atan_bound (y / x)). lra.
  - destruct (Rlt_dec x 0) as [Hx'|Hx'].
    + pose proof (atan_bound (y / x)) as Hb.
      destruct (Rle_dec 0 y) as [Hy|Hy].
      * assert (y / x <= 0) as Hq.
        { pose proof (Rinv_lt_0_compat x Hx'). unfold Rdiv. nra. }
        apply atan_nonpos in Hq. lra.
      * assert (0 < y / x) as Hq.
        { pose proof (Rinv_lt_0_compat x Hx'). unfold Rdiv. nra. }
        apply atan_pos in Hq. lra.
    + destruct (Rlt_dec 0 y); [lra|]. destruct (Rlt_dec y 0); lra.
Qed.

Lemma atan2_origin : cmath.atan2 0 0 = 0.
Proof.
  unfold cmath.atan2.
  destruct (Rlt_dec 0 0); [lra|]. reflexivity.
Qed.

Lemma sqrt_sum_sq_pos (x y : R) : x ≠ 0 ∨ y ≠ 0 → 0 < sqrt (x * x + y * y).
Proof.
  intros H. apply sqrt_lt_R0.
  destruct H; nra.
Qed.

Lemma sqrt_one_plus_sqr_div (x y : R) :
  x ≠ 0 → sqrt (1 + (y / x)²) = sqrt (x * x + y * y) / Rabs x.
Proof.
  intros Hx.
  assert (0 < Rabs x) as Ha by (apply Rabs_pos_lt; exact Hx).
  replace (1 + (y / x)²) with ((x * x + y * y) / (Rabs x * Rabs x)).
  - rewrite sqrt_div_alt by nra.
    rewrite sqrt_square by lra. reflexivity.
  - unfold Rsqr. replace (Rabs x * Rabs x) with (x * x).
    + field. exact Hx.
    + unfold Rabs. destruct (Rcase_abs x); ring.
Qed.

Lemma atan2_polar (y x : R) :
  x ≠ 0 ∨ y ≠ 0 →
  x = cmath.hypot x y * cos (cmath.atan2 y x) ∧
  y = cmath.hypot x y * sin (cmath.atan2 y x).
Proof.
  intros Hnz. unfold cmath.hypot.
  pose proof (sqrt_sum_sq_pos x y Hnz) as Hr.
  set (r := sqrt (x * x + y * y)) in *.
  unfold cmath.atan2.
  destruct (Rlt_dec 0 x) as [Hx|Hx].
  - rewrite cos_atan, sin_atan, sqrt_one_plus_sqr_div by lra.
    fold r. rewrite Rabs_right by lra.
    split; field; lra.
  - destruct (Rlt_dec x 0) as [Hx'|Hx'].
    + assert (cos (atan (y / x)) = - x / r ∧ sin (atan (y / x)) = - y / r) as [Hc Hs].
      { rewrite cos_atan, sin_atan, sqrt_one_plus_sqr_div by lra.
        fold r. rewrite Rabs_left by lra. split; field; lra. }
      destruct (Rle_dec 0 y) as [Hy|Hy].
      * rewrite neg_cos, neg_sin, Hc, Hs. split; field; lra.
      * unfold Rminus. rewrite cos_plus, sin_plus, cos_neg, sin_neg, cos_PI, sin_PI, Hc, Hs.
        split; field; lra.
    + assert (x = 0) as -> by lra.
      assert (r = Rabs y) as Hry.
      { unfold r. replace (0 * 0 + y * y) with (y²) by (unfold Rsqr; ring).
        apply sqrt_Rsqr_abs. }
      destruct (Rlt_dec 0 y) as [Hy|Hy].
      * rewrite cos_PI2, sin_PI2, Hry, Rabs_right by lra. lra.
      * destruct (Rlt_dec y 0) as [Hy'|Hy'].
        -- rewrite cos_neg, sin_neg, cos_PI2, sin_PI2, Hry, Rabs_left by lra. lra.
        -- destruct Hnz; lra.
Qed.

Lemma angle_unique (a b : R) :
  - PI < a <= PI → - PI < b <= PI →
  cos a = cos b → sin a = sin b → a = b.
Proof.
  intros Ha Hb Hc Hs.
  pose proof PI_RGT_0 as Hpi.
  assert (sin (a - b) = 0) as Hsd.
  { rewrite sin_minus, Hc, Hs. ring. }
  assert (cos (a - b) = 1) as Hcd.
  { rewrite cos_minus, Hc, Hs.
    pose proof (sin2_cos2 b) as H. unfold Rsqr in H. lra. }
  destruct (Rle_dec 0 (a - b)) as [Hd|Hd].
  - destruct (sin_eq_O_2PI_0 (a - b)) as [H|[H|H]]; try lra.
    rewrite H, cos_PI in Hcd. lra.
  - assert (sin (b - a) = 0) as Hsd'.
    { replace (b - a) with (- (a - b)) by ring. rewrite sin_neg. lra. }
    destruct (sin_eq_O_2PI_0 (b - a)) as [H|[H|H]]; try lra.
    replace (a - b) with (- (b - a)) in Hcd by ring.
    rewrite cos_neg, H, cos_PI in Hcd. lra.
Qed.

Lemma hypot_polar (r phi : R) :
  0 < r → cmath.hypot (r * cos phi) (r * sin phi) = r.
Proof.
  intros Hr. unfold cmath.hypot.
  replace (r * cos phi * (r * cos phi) + r * sin phi * (r * sin phi))
    with (r * r * ((sin phi)² + (cos phi)²)) by (unfold Rsqr; ring).
  rewrite sin2_cos2, Rmult_1_r. apply sqrt_square. lra.
Qed.

Lemma atan2_of_polar (r phi : R) :
  0 < r → - PI < phi <= PI →
  cmath.atan2 (r * sin phi) (r * cos phi) = phi.
Proof.
  intros Hr Hphi.
  assert (r * cos phi ≠ 0 ∨ r * sin phi ≠ 0) as Hnz.
  { pose proof (sin2_cos2 phi) as H. unfold Rsqr in H.
    destruct (Req_dec (cos phi) 0) as [Hc|Hc].
    - right. rewrite Hc in H. assert (sin phi ≠ 0) by nra. nra.
    - left. nra. }
  destruct (atan2_polar _ _ Hnz) as [Hx Hy].
  rewrite hypot_polar in Hx, Hy by exact Hr.
  apply angle_unique.
  - apply atan2_bound.
  - exact Hphi.
  - apply Rmult_eq_reg_l with r; lra.
  - apply Rmult_eq_reg_l with r; lra.
Qed.

Lemma d_idx_scale (a : R) : a / (2 * cmath.M_PI) * 12 = a * (6 / PI).
Proof. unfold cmath.M_PI. pose proof PI_RGT_0. field. lra. Qed.

Lemma six_over_PI_pos : 0 < 6 / PI.
Proof. pose proof PI_RGT_0. apply Rdiv_lt_0_compat; lra. Qed.

Lemma six_over_PI_PI : PI * (6 / PI) = 6.
Proof. pose proof PI_RGT_0. field. lra. Qed.

Lemma sector_index_range (a : R) :
  - (2 * PI) < a < 2 * PI → (0 ≤ sector_index a ≤ 11)%Z.
Proof.
  intros [Hlo Hhi]. unfold sector_index, cmath.floor.
  rewrite d_idx_scale.
  pose proof six_over_PI_pos as Hk. pose proof six_over_PI_PI as Hpi.
  assert (- 12 < a * (6 / PI) < 12) as [Hl Hh] by nra.
  destruct (Rge_dec (a * (6 / PI)) 0) as [Hd|Hd].
  - pose proof (Zfloor_bound (a * (6 / PI))) as [H1 H2].
    split.
    + apply Zfloor_lub. simpl. lra.
    + assert (IZR (Zfloor (a * (6 / PI))) < 12) as H by lra.
      apply lt_IZR in H. lia.
  - pose proof (Zfloor_bound (a * (6 / PI) + 12)) as [H1 H2].
    split.
    + apply Zfloor_lub. simpl. lra.
    + assert (IZR (Zfloor (a * (6 / PI) + 12)) < 12) as H by lra.
      apply lt_IZR in H. lia.
Qed.

Lemma sector_index_turn (a : R) :
  - (2 * PI) <= a < 0 → sector_index (a + 2 * PI) = sector_index a.
Proof.
  intros [Hlo Hhi]. unfold sector_index, cmath.floor.
  rewrite !d_idx_scale.
  pose proof six_over_PI_pos as Hk. pose proof six_over_PI_PI as Hpi.
  replace ((a + 2 * PI) * (6 / PI)) with (a * (6 / PI) + 12) by lra.
  assert (- 12 <= a * (6 / PI) < 0) as [Hl Hh] by nra.
  destruct (Rge_dec (a * (6 / PI) + 12) 0) as [Hd|Hd]; [|lra].
  destruct (Rge_dec (a * (6 / PI)) 0) as [Hd'|Hd']; [lra|].
  reflexivity.
Qed.

Lemma sin_turn (a : R) : sin (a + 2 * PI) = sin a.
Proof. rewrite sin_plus, sin_2PI, cos_2PI. ring. Qed.

Lemma cos_turn (a : R) : cos (a + 2 * PI) = cos a.
Proof. rewrite cos_plus, sin_2PI, cos_2PI. ring. Qed.

Lemma atan2_sin_cos (r phi : R) :
  0 < r → - (2 * PI) < phi < 2 * PI →
  sector_index (cmath.atan2 (r * sin phi) (r * cos phi)) = sector_index phi.
Proof.
  intros Hr [Hlo Hhi]. pose proof PI_RGT_0 as Hpi.
  destruct (Rle_dec phi (- PI)) as [H1|H1].
  - rewrite <- (sin_turn phi), <- (cos_turn phi).
    rewrite atan2_of_polar by lra.
    apply sector_index_turn. lra.
  - destruct (Rlt_dec PI phi) as [H2|H2].
    + replace (sin phi) with (sin (phi - 2 * PI)).
      2:{ rewrite <- (sin_turn (phi - 2 * PI)). f_equal. ring. }
      replace (cos phi) with (cos (phi - 2 * PI)).
      2:{ rewrite <- (cos_turn (phi - 2 * PI)). f_equal. ring. }
      rewrite atan2_of_polar by lra.
      rewrite <- (sector_index_turn (phi - 2 * PI)) by lra.
      f_equal. ring.
    + rewrite atan2_of_polar by lra. reflexivity.
Qed.

End Geometry.

(** ** The two sector computations *)

Section Sectors.
Local Open Scope R_scope.

Lemma junction_sector_range (f : Feature) (e : JunctionExit) :
  (0 ≤ junction_sector f e ≤ 11)%Z.
Proof.
  unfold junction_sector. apply sector_index_range.
  pose proof PI_RGT_0.
  match goal with |- _ < cmath.atan2 ?b ?a < _ =>
    pose proof (atan2_bound b a) end.
  lra.
Qed.

Lemma blend_sector_range (f : Feature) (e : JunctionExit) :
  (0 ≤ blend_sector f e ≤ 11)%Z.
Proof.
  unfold blend_sector. apply sector_index_range.
  pose proof PI_RGT_0.
  match goal with |- _ < cmath.atan2 ?b ?a - cmath.atan2 ?d ?c < _ =>
    pose proof (atan2_bound b a); pose proof (atan2_bound d c) end.
  lra.
Qed.

Lemma atan2_scale (k y x : R) :
  0 < k → cmath.atan2 (k * y) (k * x) = cmath.atan2 y x.
Proof.
  intros Hk. unfold cmath.atan2.
  assert (x ≠ 0 → k * y / (k * x) = y / x) as Hq by (intros; field; lra).
  destruct (Rlt_dec 0 x) as [Hx|Hx].
  - destruct (Rlt_dec 0 (k * x)); [|nra]. rewrite Hq by lra. reflexivity.
  - destruct (Rlt_dec 0 (k * x)); [nra|].
    destruct (Rlt_dec x 0) as [Hx'|Hx'].
    + destruct (Rlt_dec (k * x) 0); [|nra]. rewrite Hq by lra.
      destruct (Rle_dec 0 y), (Rle_dec 0 (k * y)); try nra; reflexivity.
    + destruct (Rlt_dec (k * x) 0); [nra|].
      destruct (Rlt_dec 0 y), (Rlt_dec 0 (k * y)); try nra; try reflexivity.
      destruct (Rlt_dec y 0), (Rlt_dec (k * y) 0); try nra; reflexivity.
Qed.

Lemma rotated_displacement (x y h : R) :
  x ≠ 0 ∨ y ≠ 0 →
  cos (- h) * x - sin (- h) * y
    = cmath.hypot x y * cos (cmath.atan2 y x - h) ∧
  sin (- h) * x + cos (- h) * y
    = cmath.hypot x y * sin (cmath.atan2 y x - h).
Proof.
  intros Hnz. destruct (atan2_polar y x Hnz) as [Hx Hy].
  remember (cmath.hypot x y) as r eqn:Hr.
  remember (cmath.atan2 y x) as th eqn:Hth.
  rewrite cos_neg, sin_neg, cos_minus, sin_minus.
  split.
  - rewrite Hx at 1. rewrite Hy at 1. ring.
  - rewrite Hx at 1. rewrite Hy at 1. ring.
Qed.

(** Where the exit is not at the obstacle's own position, the rotation
    into the heading frame and the difference of the two bearings give
    the same sector. *)
Lemma sectors_agree (f : Feature) (e : JunctionExit) :
  Point3D.x (exit_position e) ≠ Point3D.x (position_of f)
  ∨ Point3D.y (exit_position e) ≠ Point3D.y (position_of f) →
  blend_sector f e = junction_sector f e.
Proof.
  intros Hne. unfold blend_sector, junction_sector, exit_displacement. simpl.
  set (x := Point3D.x (exit_position e) - Point3D.x (position_of f)).
  set (y := Point3D.y (exit_position e) - Point3D.y (position_of f)).
  set (h := cmath.atan2 (Point3D.y (raw_velocity f)) (Point3D.x (raw_velocity f))).
  assert (x ≠ 0 ∨ y ≠ 0) as Hnz by (unfold x, y; destruct Hne; [left|right]; lra).
  destruct (rotated_displacement x y h Hnz) as [-> ->].
  symmetry. apply atan2_sin_cos.
  - unfold cmath.hypot. apply sqrt_sum_sq_pos. exact Hnz.
  - pose proof PI_RGT_0 as Hpi. pose proof (atan2_bound y x) as Hb.
    pose proof (atan2_bound (Point3D.y (raw_velocity f))
                  (Point3D.x (raw_velocity f))) as Hh.
    fold h in Hh. lra.
Qed.

End Sectors.

Section SectorClaims.
Local Open Scope R_scope.

Lemma sector_index_0 : sector_index 0 = 0%Z.
Proof.
  unfold sector_index, cmath.floor. rewrite d_idx_scale, Rmult_0_l.
  destruct (Rge_dec 0 0) as [_|H]; [|lra].
  apply Zfloor_eq. simpl. lra.
Qed.

Lemma atan2_pos_x_axis (x : R) : 0 < x → cmath.atan2 0 x = 0.
Proof.
  intros Hx. unfold cmath.atan2. destruct (Rlt_dec 0 x); [|lra].
  unfold Rdiv. rewrite Rmult_0_l. apply atan_0.
Qed.

Lemma atan2_pos_y_axis (y : R) : 0 < y → cmath.atan2 y 0 = PI / 2.
Proof.
  intros Hy. unfold cmath.atan2.
  destruct (Rlt_dec 0 0); [lra|]. destruct (Rlt_dec 0 y); [reflexivity|lra].
Qed.

(** Both sectors are functions of the direction of the exit as seen
    from the obstacle, and of the direction of the raw velocity. *)
Lemma sectors_of_direction (f f' : Feature) (e e' : JunctionExit) (k m : R) :
  0 < k → 0 < m →
  Point3D.x (raw_velocity f') = m * Point3D.x (raw_velocity f) →
  Point3D.y (raw_velocity f') = m * Point3D.y (raw_velocity f) →
  Point3D.x (exit_position e') - Point3D.x (position_of f')
    = k * (Point3D.x (exit_position e) - Point3D.x (position_of f)) →
  Point3D.y (exit_position e') - Point3D.y (position_of f')
    = k * (Point3D.y (exit_position e) - Point3D.y (position_of f)) →
  blend_sector f' e' = blend_sector f e
  ∧ junction_sector f' e' = junction_sector f e.
Proof.
  intros Hk Hm Hvx Hvy Hx Hy. split.
  - unfold blend_sector. rewrite Hvx, Hvy, Hx, Hy, !atan2_scale by assumption.
    reflexivity.
  - unfold junction_sector, exit_displacement. simpl.
    rewrite Hvx, Hvy, Hx, Hy, (atan2_scale m) by assumption.
    set (h := cmath.atan2 (Point3D.y (raw_velocity f)) (Point3D.x (raw_velocity f))).
    set (x := Point3D.x (exit_position e) - Point3D.x (position_of f)).
    set (y := Point3D.y (exit_position e) - Point3D.y (position_of f)).
    replace (sin (- h) * (k * x) + cos (- h) * (k * y))
      with (k * (sin (- h) * x + cos (- h) * y)) by ring.
    replace (cos (- h) * (k * x) - sin (- h) * (k * y))
      with (k * (cos (- h) * x - sin (- h) * y)) by ring.
    rewrite atan2_scale by assumption. reflexivity.
Qed.

(** Where the exit is at the obstacle's own position the displacement
    is (0, 0), whose bearing [atan2] gives as 0: for an obstacle moving
    along the y axis the blending step looks up sector 9 and the feature
    extraction writes sector 0.  No rounding is involved: binary64 gives
    the same two sectors. *)
Lemma sectors_at_own_position :
  blend_sector Samples.northbound Samples.exit_here = 9%Z
  ∧ junction_sector Samples.northbound Samples.exit_here = 0%Z.
Proof.
  split.
  - unfold blend_sector. simpl. rewrite Rminus_diag, atan2_origin.
    rewrite atan2_pos_y_axis by lra.
    unfold sector_index, cmath.floor. rewrite d_idx_scale.
    pose proof PI_RGT_0 as Hpi.
    replace ((0 - PI / 2) * (6 / PI)) with (- 3) by (field; lra).
    destruct (Rge_dec (- 3) 0); [lra|].
    apply Zfloor_eq. simpl. lra.
  - unfold junction_sector, exit_displacement. simpl.
    rewrite Rminus_diag, !Rmult_0_r, Rminus_diag, Rplus_0_l, atan2_origin.
    apply sector_index_0.
Qed.

End SectorClaims.

Section SiblingSectors.
Import PrimFloat.

(** C6 (the code at the failing inputs): the sector the blending step
    computes for an exit (lines 114-122) and the sector the junction
    feature extraction computes for it (lines 263-271) are not always
    the same.
    - Exit at the obstacle's own position, obstacle moving along the y
      axis: blending 9, extraction 0.
    - On binary64, obstacle at the origin with raw velocity (-3, -3) and
      exit at (-6, -6), straight ahead.  Both bearings are the same
      double [h], so the blending step gets angle 0 and sector 0.  The
      extraction rotates with [c = cos(-h)] and [s = sin(-h)], which
      differ in the last place, gets the displacement (8.48..., -2^-50),
      whose bearing is -0x1.e2b7dddfefa65p-54, and with it sector 12.
    - On binary64, raw velocity (0.6, 0.1) and exit at (6, 1), straight
      ahead again.  The two bearings differ by one unit in the last
      place, so the blending step gets angle -2^-55 and sector 12; the
      extraction gets the displacement (6.08..., 0), bearing 0 and
      sector 0.
    The values of [std::atan2], [std::cos] and [std::sin] are those of
    the C library; the sums, products and the sector are computed here.
    In exact arithmetic the two computations agree on every exit that is
    not at the obstacle's own position. *)
Theorem sector_assignments_disagree :
  (blend_sector Samples.northbound Samples.exit_here = 9%Z
   ∧ junction_sector Samples.northbound Samples.exit_here = 0%Z)
  ∧ (let h := (-0x1.2d97c7f3321d2p+1)%float in
     let c := (-0x1.6a09e667f3bccp-1)%float in
     let s := (0x1.6a09e667f3bcdp-1)%float in
     let bearing := (-0x1.e2b7dddfefa65p-54)%float in
     Binary64.blend_sector h h = Some 0%Z
     ∧ Binary64.exit_displacement c s (-6)%float (-6)%float
       = (0x1.0f876ccdf6cdap+3, -0x1p-50)%float
     ∧ Binary64.sector_index bearing = Some 12%Z)
  ∧ (let bearing_of_exit := (0x1.52397843c9addp-3)%float in
     let bearing_of_velocity := (0x1.52397843c9adep-3)%float in
     let c := (0x1.f9089fd7aa128p-1)%float in
     let s := (-0x1.50b06a8fc6b70p-3)%float in
     Binary64.blend_sector bearing_of_exit bearing_of_velocity = Some 12%Z
     ∧ Binary64.exit_displacement c s 6%float 1%float
       = (0x1.854bfb363dc3ap+2, 0)%float
     ∧ Binary64.sector_index 0%float = Some 0%Z)
  ∧ (∀ (f : Feature) (e : JunctionExit),
       Point3D.x (exit_position e) ≠ Point3D.x (position_of f)
       ∨ Point3D.y (exit_position e) ≠ Point3D.y (position_of f) →
       blend_sector f e = junction_sector f e).
Proof.
  split; [exact sectors_at_own_position|].
  split; [vm_compute; repeat split|].
  split; [vm_compute; repeat split|].
  intros f e Hne. apply sectors_agree. exact Hne.
Qed.

End SiblingSectors.

(** ** The trajectory cost *)

Section TrajectoryCost.
Context {util : PredictionUtil}.
Local Open Scope R_scope.



Lemma trajectory_cost_within (res : R) (xc yc : Coeffs) (T : R) (k : nat) :
  0 < res → ∀ t cost : R, T - t < INR k * res →
  ∀ fuel : nat, (S k ≤ fuel)%nat →
  ∃ c : R, trajectory_cost fuel res xc yc T t cost = Done c.
Proof.
  intros Hres. induction k as [|k IH]; intros t cost Hk fuel Hfuel.
  - destruct fuel as [|fuel]; [lia|]. simpl in *.
    destruct (Rle_dec t T); [lra|]. eauto.
  - destruct fuel as [|fuel]; [lia|]. simpl.
    destruct (Rle_dec t T); [|eauto].
    apply IH; [|lia].
    rewrite S_INR in Hk. lra.
Qed.

(** With a positive time resolution the sampling loop ends. *)
Lemma trajectory_cost_terminates (res : R) (xc yc : Coeffs) (T t cost : R) :
  0 < res →
  ∃ n : nat, ∀ fuel : nat, (n ≤ fuel)%nat →
  ∃ c : R, trajectory_cost fuel res xc yc T t cost = Done c.
Proof.
  intros Hres.
  set (q := (T - t) / res).
  set (k := Z.to_nat (up q)).
  exists (S k). intros fuel Hfuel.
  apply (trajectory_cost_within res xc yc T k Hres t cost); [|exact Hfuel].
  destruct (archimed q) as [Hup _].
  destruct (Z_lt_le_dec (up q) 0) as [Hneg|Hpos].
  - assert (IZR (up q) < 0) by (apply IZR_lt in Hneg; exact Hneg).
    assert (q < 0) as Hq by lra.
    assert (T - t < 0).
    { unfold q in Hq. apply (Rmult_lt_compat_r res) in Hq; [|exact Hres].
      unfold Rdiv in Hq. rewrite Rmult_assoc, Rinv_l, Rmult_1_r, Rmult_0_l in Hq; lra. }
    pose proof (pos_INR k). nra.
  - unfold k. rewrite INR_IZR_INZ, Z2Nat.id by exact Hpos.
    assert (T - t = q * res) as ->.
    { unfold q. field. lra. }
    apply Rmult_lt_compat_r; lra.
Qed.


End TrajectoryCost.

(** ** The junction feature block *)

Section JunctionFeatures.
Context {util : PredictionUtil}.
Local Open Scope R_scope.

Lemma set_at_nat {A : Type} (v : list A) (n : nat) (a : A) :
  (n < length v)%nat → set_at v (Z.of_nat n) a = Done (<[n := a]> v).
Proof.
  intros H. rewrite set_at_Done by lia. rewrite Nat2Z.id. reflexivity.
Qed.

Lemma length_default_sectors : length default_sectors = JUNCTION_FEATURE_SIZE.
Proof. reflexivity. Qed.

Lemma length_write_sector (v : list R) (idx : Z) (p dx dy dist dh c : R) :
  length (write_sector v idx p dx dy dist dh c) = length v.
Proof. unfold write_sector. rewrite !length_insert. reflexivity. Qed.

(** With the sector in range, one turn of the loop is the six writes. *)
Lemma junction_exit_step_Done (fuel : nat) (res : R) (f : Feature)
    (heading range : R) (block : list R) (e : JunctionExit) (c : R) :
  length block = JUNCTION_FEATURE_SIZE →
  let d := exit_displacement f heading e in
  let idx := sector_index (cmath.atan2 d.2 d.1) in
  exit_cost fuel res f d.1 d.2 (AngleDiff heading (exit_heading e)) = Done c →
  junction_exit_step fuel res f heading range block e
  = Done (write_sector block idx 1 (d.1 / range) (d.2 / range)
            (sqrt (d.1 * d.1 + d.2 * d.2) / range)
            (AngleDiff heading (exit_heading e)) c).
Proof.
  intros Hlen d idx Hcost.
  assert (0 ≤ idx ≤ 11)%Z as Hidx.
  { apply sector_index_range. pose proof PI_RGT_0.
    pose proof (atan2_bound d.2 d.1). lra. }
  unfold junction_exit_step. fold d. fold idx. rewrite Hcost. simpl.
  unfold write_sector, JUNCTION_FEATURE_SIZE in *.
  clearbody idx.
  destruct (Z_of_nat_complete idx) as [n ->]; [lia|].
  assert (n ≤ 11)%nat as Hn by lia.
  replace (Z.to_nat (Z.of_nat n * 6)) with (n * 6)%nat by lia.
  replace (Z.of_nat n * 6)%Z with (Z.of_nat (n * 6)) by lia.
  replace (Z.of_nat (n * 6) + 1)%Z with (Z.of_nat (n * 6 + 1)) by lia.
  replace (Z.of_nat (n * 6) + 2)%Z with (Z.of_nat (n * 6 + 2)) by lia.
  replace (Z.of_nat (n * 6) + 3)%Z with (Z.of_nat (n * 6 + 3)) by lia.
  replace (Z.of_nat (n * 6) + 4)%Z with (Z.of_nat (n * 6 + 4)) by lia.
  replace (Z.of_nat (n * 6) + 5)%Z with (Z.of_nat (n * 6 + 5)) by lia.
  rewrite set_at_nat by lia. simpl.
  rewrite set_at_nat by (rewrite !length_insert; lia). simpl.
  rewrite set_at_nat by (rewrite !length_insert; lia). simpl.
  rewrite set_at_nat by (rewrite !length_insert; lia). simpl.
  rewrite set_at_nat by (rewrite !length_insert; lia). simpl.
  rewrite set_at_nat by (rewrite !length_insert; lia).
  reflexivity.
Qed.



End JunctionFeatures.


(** For an exit straight ahead, reached at the obstacle's own speed, the
    fit of the x coordinate is motion at that constant speed. *)
Lemma spec_fit_straight_ahead (diff_x v : R) :
  (0 < diff_x)%R → (0 < v)%R →
  @ComputePolynomial spec_helpers (0, v)%R (diff_x, cos 0 * v)%R
    (cmath.hypot diff_x 0 / v)%R
  = (0, v, 0, 0)%R.
Proof.
  intros Hx Hv. unfold cmath.hypot.
  replace (diff_x * diff_x + 0 * 0)%R with (diff_x * diff_x)%R by ring.
  rewrite sqrt_square by lra. rewrite cos_0.
  simpl. unfold spec_util.ComputePolynomial. simpl.
  assert (v ≠ 0%R) by lra. assert (diff_x ≠ 0%R) by lra.
  repeat f_equal; field; auto.
Qed.


(** ** Blending the sector probabilities onto the exits *)

Section Blending.
Local Open Scope R_scope.

Lemma at_in_range (p : list R) (i : Z) :
  (0 ≤ i < Z.of_nat (length p))%Z →
  ∃ a : R, p !! Z.to_nat i = Some a ∧ at_ p i = Done a.
Proof.
  intros Hi.
  destruct (lookup_lt_is_Some_2 p (Z.to_nat i)) as [a Ha]; [lia|].
  exists a. split; [exact Ha|]. apply at_Done. split; [lia | exact Ha].
Qed.

Lemma prev_idx_mod (idx : Z) :
  (0 ≤ idx ≤ 11)%Z →
  (if bool_decide (idx = 0%Z) then 11%Z else (idx - 1)%Z) = ((idx - 1) mod 12)%Z.
Proof.
  intros H. case_bool_decide as H0.
  - subst idx. reflexivity.
  - rewrite Z.mod_small; lia.
Qed.

Lemma post_idx_mod (idx : Z) :
  (0 ≤ idx ≤ 11)%Z →
  (if bool_decide (idx = 11%Z) then 0%Z else (idx + 1)%Z) = ((idx + 1) mod 12)%Z.
Proof.
  intros H. case_bool_decide as H0.
  - subst idx. reflexivity.
  - rewrite Z.mod_small; lia.
Qed.

(** One turn of the loop stores the blend of the exit's sector and its
    two circular neighbours. *)
Lemma blend_exit_Done (f : Feature) (p : list R) (m : gmap string R)
    (e : JunctionExit) :
  length p = 12%nat →
  let idx := blend_sector f e in
  ∃ a b c : R,
    p !! Z.to_nat idx = Some a
    ∧ p !! Z.to_nat ((idx - 1) mod 12) = Some b
    ∧ p !! Z.to_nat ((idx + 1) mod 12) = Some c
    ∧ blend_exit f p m e
      = Done (<[exit_lane_id e := 0.5 * a + 0.25 * b + 0.25 * c]> m).
Proof.
  intros Hlen idx.
  pose proof (blend_sector_range f e) as Hidx. fold idx in Hidx.
  unfold blend_exit. fold idx.
  rewrite prev_idx_mod, post_idx_mod by exact Hidx.
  destruct (at_in_range p idx) as (a & Ha & ->); [lia|].
  destruct (at_in_range p ((idx - 1) mod 12)) as (b & Hb & ->).
  { pose proof (Z.mod_pos_bound (idx - 1) 12). lia. }
  destruct (at_in_range p ((idx + 1) mod 12)) as (c & Hc & ->).
  { pose proof (Z.mod_pos_bound (idx + 1) 12). lia. }
  exists a, b, c. repeat split; try assumption.
  simpl. do 2 f_equal. lra.
Qed.

Lemma blend_exits_total (f : Feature) (p : list R) (exits : list JunctionExit)
    (m : gmap string R) :
  length p = 12%nat →
  ∃ m' : gmap string R,
    foldM (blend_exit f p) m exits = Done m'
    ∧ ∀ lane : string,
        (∀ e : JunctionExit, e ∈ exits → exit_lane_id e ≠ lane) →
        m' !! lane = m !! lane.
Proof.
  intros Hlen. revert m. induction exits as [|e exits IH]; intros m; simpl.
  - exists m. split; [reflexivity | auto].
  - destruct (blend_exit_Done f p m e Hlen) as (a & b & c & _ & _ & _ & ->).
    simpl. destruct (IH (<[exit_lane_id e := 0.5 * a + 0.25 * b + 0.25 * c]> m))
      as (m' & Hm' & Hframe).
    exists m'. split; [exact Hm'|].
    intros lane Hlane. rewrite Hframe.
    + apply lookup_insert_ne. apply Hlane. left.
    + intros e' He'. apply Hlane. right. exact He'.
Qed.

(** One turn of the blending loop is lines 123-127 at the sector index
    that lines 114-122 computed. *)
Lemma blend_exit_at (f : Feature) (p : list R) (m : gmap string R)
    (e : JunctionExit) :
  blend_exit f p m e = blend_at p m (exit_lane_id e) (blend_sector f e).
Proof. reflexivity. Qed.

(** For a sector index in 0 to 11, lines 123-127 store the blend of the
    sector and its two circular neighbours. *)
Lemma blend_at_in_range (p : list R) (m : gmap string R) (lane : string)
    (idx : Z) :
  length p = 12%nat → (0 ≤ idx ≤ 11)%Z →
  ∃ a b c : R,
    p !! Z.to_nat idx = Some a
    ∧ p !! Z.to_nat ((idx - 1) mod 12) = Some b
    ∧ p !! Z.to_nat ((idx + 1) mod 12) = Some c
    ∧ blend_at p m lane idx = Done (<[lane := 0.5 * a + 0.25 * b + 0.25 * c]> m).
Proof.
  intros Hlen Hidx. unfold blend_at.
  rewrite prev_idx_mod, post_idx_mod by exact Hidx.
  destruct (at_in_range p idx) as (a & Ha & ->); [lia|].
  destruct (at_in_range p ((idx - 1) mod 12)) as (b & Hb & ->).
  { pose proof (Z.mod_pos_bound (idx - 1) 12). lia. }
  destruct (at_in_range p ((idx + 1) mod 12)) as (c & Hc & ->).
  { pose proof (Z.mod_pos_bound (idx + 1) 12). lia. }
  exists a, b, c. repeat split; try assumption.
  simpl. do 2 f_equal. lra.
Qed.

(** For the sector index 12, lines 123-127 read [probability[12]], past
    the end of a sequence of 12 values. *)
Lemma blend_at_12 (p : list R) (m : gmap string R) (lane : string) :
  length p = 12%nat →
  at_ p 12 = Fault OutOfRange
  ∧ at_ p 13 = Fault OutOfRange
  ∧ blend_at p m lane 12 = Fault OutOfRange.
Proof.
  intros Hlen.
  assert (∀ i : Z, (12 ≤ i)%Z → at_ p i = Fault OutOfRange) as Hat.
  { intros i Hi. unfold at_. rewrite bool_decide_eq_true_2 by lia.
    rewrite lookup_ge_None_2 by lia. reflexivity. }
  split; [apply Hat; lia|]. split; [apply Hat; lia|].
  unfold blend_at. rewrite (Hat 12%Z) by lia. reflexivity.
Qed.

End Blending.

Section BlendingOnBinary64.
Import PrimFloat.

(** C5 (the code at the failing input): the claimed blend with circular
    wrap is what lines 123-127 store for every sector index in 0 to 11,
    but the index that lines 118-122 compute is not always one of these.
    On binary64, for an obstacle at the origin with raw velocity
    (0.6, 0.1) and an exit at (6, 1), straight ahead, the two bearings
    [std::atan2] returns differ by one unit in the last place, the angle
    is -2^-55 and the sector index is 12; for raw velocity (1, 0) and an
    exit at (1, -2^-60) the angle is -2^-60 and the index is 12 as well.
    At index 12, [prev_idx] is 11 and [post_idx] is 13, and the reads of
    [probability[12]] and [probability[13]] are past the end of the 12
    values. *)
Theorem blend_reads_past_the_sequence (p : list R) (m : gmap string R)
    (lane : string) :
  length p = 12%nat →
  (let bearing_of_exit := (0x1.52397843c9addp-3)%float in
   let bearing_of_velocity := (0x1.52397843c9adep-3)%float in
   Binary64.blend_sector bearing_of_exit bearing_of_velocity = Some 12%Z)
  ∧ Binary64.blend_sector (-0x1p-60)%float 0%float = Some 12%Z
  ∧ at_ p 12 = Fault OutOfRange
  ∧ at_ p 13 = Fault OutOfRange
  ∧ blend_at p m lane 12 = Fault OutOfRange
  ∧ (∀ idx : Z, (0 ≤ idx ≤ 11)%Z →
     ∃ a b c : R,
       p !! Z.to_nat idx = Some a
       ∧ p !! Z.to_nat ((idx - 1) mod 12) = Some b
       ∧ p !! Z.to_nat ((idx + 1) mod 12) = Some c
       ∧ blend_at p m lane idx
         = Done (<[lane := (0.5 * a + 0.25 * b + 0.25 * c)%R]> m))
  ∧ (∀ (f : Feature) (e : JunctionExit),
       blend_exit f p m e = blend_at p m (exit_lane_id e) (blend_sector f e)).
Proof.
  intros Hlen.
  split; [vm_compute; reflexivity|]. split; [vm_compute; reflexivity|].
  destruct (blend_at_12 p m lane Hlen) as (H12 & H13 & Hblend).
  do 3 (split; [assumption|]).
  split; [intros idx Hidx; apply blend_at_in_range; assumption|].
  intros f e. apply blend_exit_at.
Qed.

End BlendingOnBinary64.

Lemma blend_reads_past_the_sequence_witness :
  blend_at Samples.sector0_certain ∅ "a" 0 = Done (<["a"%string := 0.5%R]> ∅)
  ∧ blend_at Samples.sector0_certain ∅ "a" 1 = Done (<["a"%string := 0.25%R]> ∅)
  ∧ blend_at Samples.sector0_certain ∅ "a" 11 = Done (<["a"%string := 0.25%R]> ∅)
  ∧ blend_at Samples.sector0_certain ∅ "a" 12 = Fault OutOfRange.
Proof.
  destruct (blend_reads_past_the_sequence Samples.sector0_certain ∅ "a" eq_refl)
    as (_ & _ & _ & _ & H12 & Hin & _).
  assert (∀ (idx : Z) (v : R),
            (0 ≤ idx ≤ 11)%Z →
            (∀ a b c : R,
               Samples.sector0_certain !! Z.to_nat idx = Some a →
               Samples.sector0_certain !! Z.to_nat ((idx - 1) mod 12) = Some b →
               Samples.sector0_certain !! Z.to_nat ((idx + 1) mod 12) = Some c →
               (0.5 * a + 0.25 * b + 0.25 * c)%R = v) →
            blend_at Samples.sector0_certain ∅ "a" idx
            = Done (<["a"%string := v]> ∅)) as Hat.
  { intros idx v Hidx Hv.
    destruct (Hin idx Hidx) as (a & b & c & Ha & Hb & Hc & ->).
    rewrite (Hv a b c Ha Hb Hc). reflexivity. }
  split; [|split; [|split; [|exact H12]]]; apply Hat; try lia;
    intros a b c Ha Hb Hc; vm_compute in Ha, Hb, Hc;
    injection Ha as <-; injection Hb as <-; injection Hc as <-; lra.
Defined.

(** ** Assigning the blended values to the lane sequences *)

Section Assignment.
Local Open Scope R_scope.

Implicit Types (m : gmap string R) (s : LaneSequence) (segs : list LaneSegment).

Lemma scan_lane_segment m segs s :
  lane_segment
    (foldl (λ s seg, match m !! lane_id seg with
                     | Some p => set_probability p s
                     | None => s
                     end) s segs)
  = lane_segment s.
Proof.
  revert s. induction segs as [|seg segs IH]; intros s; simpl; [reflexivity|].
  rewrite IH. destruct (m !! lane_id seg); reflexivity.
Qed.

Lemma scan_no_match m segs s :
  (∀ seg, seg ∈ segs → m !! lane_id seg = None) →
  foldl (λ s seg, match m !! lane_id seg with
                  | Some p => set_probability p s
                  | None => s
                  end) s segs = s.
Proof.
  revert s. induction segs as [|seg segs IH]; intros s H; simpl; [reflexivity|].
  rewrite (H seg) by left. apply IH. intros x Hx. apply H. right. exact Hx.
Qed.

Lemma scan_last_match m l1 seg l2 v s :
  m !! lane_id seg = Some v →
  (∀ x, x ∈ l2 → m !! lane_id x = None) →
  foldl (λ s seg, match m !! lane_id seg with
                  | Some p => set_probability p s
                  | None => s
                  end) s (l1 ++ seg :: l2)
  = {| lane_segment := lane_segment s; probability := v |}.
Proof.
  intros Hv Hl2. rewrite foldl_app. simpl. rewrite Hv.
  rewrite scan_no_match by exact Hl2.
  unfold set_probability. rewrite scan_lane_segment. reflexivity.
Qed.

(** Either no segment matches, or there is a last one that does. *)
Lemma last_match_cases m segs :
  (∀ seg, seg ∈ segs → m !! lane_id seg = None)
  ∨ ∃ l1 seg l2 v, segs = l1 ++ seg :: l2
                   ∧ m !! lane_id seg = Some v
                   ∧ ∀ x, x ∈ l2 → m !! lane_id x = None.
Proof.
  induction segs as [|seg segs IH].
  - left. intros seg H. inversion H.
  - destruct IH as [Hnone | (l1 & seg' & l2 & v & -> & Hv & Hl2)].
    + destruct (m !! lane_id seg) as [v|] eqn:Hseg.
      * right. exists [], seg, segs, v. auto.
      * left. intros x Hx. apply elem_of_cons in Hx as [->|Hx]; auto.
    + right. exists (seg :: l1), seg', l2, v. auto.
Qed.

(** C7: for every lane graph, the probability of a lane sequence is
    overwritten (its value after the scan no longer depends on the value
    it had) if and only if one of its segments' lane ids is a key of the
    exit map; the value of the last matching segment wins; a sequence
    with no matching segment is left as it was, so running the scan on
    it again changes nothing. *)
Theorem lane_sequence_overwritten_iff_matched
    (m : gmap string R) (g : LaneGraph) (i : nat) (s : LaneSequence) :
  lane_sequence g !! i = Some s →
  lane_sequence (assign_lane_graph m g) !! i = Some (assign_lane_sequence m s)
  ∧ lane_segment (assign_lane_sequence m s) = lane_segment s
  ∧ ((∃ seg, seg ∈ lane_segment s ∧ is_Some (m !! lane_id seg))
     ↔ ∀ p q : R,
         probability (assign_lane_sequence m (set_probability p s))
         = probability (assign_lane_sequence m (set_probability q s)))
  ∧ (∀ l1 seg l2 v,
       lane_segment s = l1 ++ seg :: l2 →
       m !! lane_id seg = Some v →
       (∀ x, x ∈ l2 → m !! lane_id x = None) →
       probability (assign_lane_sequence m s) = v)
  ∧ ((∀ seg, seg ∈ lane_segment s → m !! lane_id seg = None) →
     assign_lane_sequence m s = s
     ∧ assign_lane_sequence m (assign_lane_sequence m s) = s).
Proof.
  intros Hi. split.
  { unfold assign_lane_graph. simpl. rewrite list_lookup_fmap, Hi. reflexivity. }
  split; [apply scan_lane_segment|].
  split; [split|split].
  - intros (seg & Hin & [v Hv]) p q.
    destruct (last_match_cases m (lane_segment s))
      as [Hnone | (l1 & seg' & l2 & v' & Hl & Hv' & Hl2)].
    + rewrite (Hnone seg Hin) in Hv. discriminate.
    + unfold assign_lane_sequence. simpl. rewrite Hl.
      rewrite !(scan_last_match m l1 seg' l2 v') by assumption. reflexivity.
  - intros Hpq.
    destruct (last_match_cases m (lane_segment s))
      as [Hnone | (l1 & seg' & l2 & v' & Hl & Hv' & Hl2)].
    + specialize (Hpq 0 1). unfold assign_lane_sequence in Hpq. simpl in Hpq.
      rewrite !scan_no_match in Hpq by exact Hnone. simpl in Hpq. lra.
    + exists seg'. split; [|eauto]. rewrite Hl. apply elem_of_app. right. left.
  - intros l1 seg l2 v Hl Hv Hl2. unfold assign_lane_sequence. rewrite Hl.
    rewrite (scan_last_match m l1 seg l2 v) by assumption. reflexivity.
  - intros Hnone.
    assert (assign_lane_sequence m s = s) as Hs.
    { unfold assign_lane_sequence. apply scan_no_match. exact Hnone. }
    rewrite !Hs. auto.
Qed.

End Assignment.

Lemma lane_sequence_overwritten_iff_matched_witness :
  lane_sequence Samples.two_sequences !! 0%nat = Some Samples.through_a
  ∧ lane_sequence (assign_lane_graph Samples.exit_map Samples.two_sequences) !! 0%nat
    = Some (assign_lane_sequence Samples.exit_map Samples.through_a)
  ∧ lane_segment (assign_lane_sequence Samples.exit_map Samples.through_a)
    = lane_segment Samples.through_a
  ∧ ((∃ seg, seg ∈ lane_segment Samples.through_a
             ∧ is_Some (Samples.exit_map !! lane_id seg))
     ↔ ∀ p q : R,
         probability (assign_lane_sequence Samples.exit_map
                        (set_probability p Samples.through_a))
         = probability (assign_lane_sequence Samples.exit_map
                          (set_probability q Samples.through_a)))
  ∧ (∀ l1 seg l2 v,
       lane_segment Samples.through_a = l1 ++ seg :: l2 →
       Samples.exit_map !! lane_id seg = Some v →
       (∀ x, x ∈ l2 → Samples.exit_map !! lane_id x = None) →
       probability (assign_lane_sequence Samples.exit_map Samples.through_a) = v)
  ∧ ((∀ seg, seg ∈ lane_segment Samples.through_a →
             Samples.exit_map !! lane_id seg = None) →
     assign_lane_sequence Samples.exit_map Samples.through_a = Samples.through_a
     ∧ assign_lane_sequence Samples.exit_map
         (assign_lane_sequence Samples.exit_map Samples.through_a)
       = Samples.through_a).
Proof.
  split; [reflexivity|].
  apply (lane_sequence_overwritten_iff_matched
           Samples.exit_map Samples.two_sequences 0 Samples.through_a).
  reflexivity.
Defined.

(** ** Feature extraction *)

Section Extraction.
Context {util : PredictionUtil}.
Local Open Scope R_scope.

(** C8: whenever the ego pose provider reports unavailable, the ego
    vehicle feature extraction returns exactly [100, 100, 0, 0],
    whatever the obstacle: also for an obstacle with zero history, which
    fails the history check only where a pose is available. *)
Theorem ego_features_fallback (obstacle : Obstacle) (i : Z) (f : Feature)
    (pose : PerceptionObstacle) :
  SetEgoVehicleFeatureValues None obstacle = Done [100; 100; 0; 0]
  ∧ SetEgoVehicleFeatureValues None
      {| id := i; history_size := 0; latest_feature := f |}
    = Done [100; 100; 0; 0]
  ∧ SetEgoVehicleFeatureValues (Some pose)
      {| id := i; history_size := 0; latest_feature := f |}
    = Fault CheckFailed.
Proof. repeat split. Qed.

Lemma SetEgoVehicleFeatureValues_total (ego : option PerceptionObstacle)
    (obstacle : Obstacle) :
  ego = None ∨ (0 < history_size obstacle)%Z →
  ∃ v : list R,
    SetEgoVehicleFeatureValues ego obstacle = Done v
    ∧ length v = EGO_VEHICLE_FEATURE_SIZE
    ∧ (ego = None → v = [100; 100; 0; 0]).
Proof.
  intros [-> | Hh].
  - exists [100; 100; 0; 0]. auto.
  - destruct ego as [pose|].
    + unfold SetEgoVehicleFeatureValues.
      rewrite bool_decide_eq_true_2 by lia.
      eexists. split; [reflexivity|]. split; [reflexivity | discriminate].
    + exists [100; 100; 0; 0]. auto.
Qed.

(** With a positive time resolution, and fuel enough for the longest
    sampling loop, the loop over the exits writes every exit into its
    sector of the 72-value block. *)
Lemma junction_exits_total (res : R) (f : Feature) (heading range : R)
    (exits : list JunctionExit) :
  0 < res →
  ∃ n : nat, ∀ fuel : nat, (n ≤ fuel)%nat →
  ∀ block : list R, length block = JUNCTION_FEATURE_SIZE →
  ∃ block' : list R,
    foldM (junction_exit_step fuel res f heading range) block exits = Done block'
    ∧ length block' = JUNCTION_FEATURE_SIZE.
Proof.
  intros Hres. induction exits as [|e exits IH].
  - exists 0%nat. intros fuel _ block Hlen. exists block. auto.
  - destruct IH as [n2 IH].
    set (d := exit_displacement f heading e).
    set (dh := AngleDiff heading (exit_heading e)).
    set (v := cmath.max 0.1 (speed f)).
    set (T := cmath.hypot d.1 d.2 / v).
    destruct (trajectory_cost_terminates res
                (ComputePolynomial (0, v) (d.1, cos dh * v) T)
                (ComputePolynomial (0, 0) (d.2, sin dh * v) T) T 0 0 Hres)
      as [n1 Hn1].
    exists (n1 `max` n2)%nat. intros fuel Hfuel block Hlen.
    destruct (Hn1 fuel) as [c Hc]; [lia|].
    simpl.
    rewrite (junction_exit_step_Done fuel res f heading range block e c Hlen)
      by exact Hc.
    simpl. apply IH; [lia|].
    rewrite length_write_sector. exact Hlen.
Qed.

Lemma SetJunctionFeatureValues_total (flags : Flags) (obstacle : Obstacle)
    (pos : Point3D.t) (jf : JunctionFeature) :
  position (latest_feature obstacle) = Some pos →
  junction_feature (latest_feature obstacle) = Some jf →
  0 < FLAGS_prediction_trajectory_time_resolution flags →
  ∃ n : nat, ∀ fuel : nat, (n ≤ fuel)%nat →
  ∃ block : list R,
    SetJunctionFeatureValues fuel flags obstacle = Done block
    ∧ length block = JUNCTION_FEATURE_SIZE.
Proof.
  intros Hpos Hjf Hres.
  destruct (junction_exits_total
              (FLAGS_prediction_trajectory_time_resolution flags)
              (latest_feature obstacle)
              (cmath.atan2 (Point3D.y (raw_velocity (latest_feature obstacle)))
                           (Point3D.x (raw_velocity (latest_feature obstacle))))
              (junction_range jf) (junction_exit jf) Hres) as [n Hn].
  exists n. intros fuel Hfuel.
  unfold SetJunctionFeatureValues. rewrite Hpos, Hjf.
  apply Hn; [exact Hfuel | apply length_default_sectors].
Qed.

(** With a position, a junction feature and a positive time resolution
    the assembled vector has its 79 values: 3 of the obstacle, 4 of the
    ego vehicle and the 72 of the junction block. *)
Lemma ExtractFeatureValues_total (flags : Flags)
    (ego : option PerceptionObstacle) (obstacle : Obstacle)
    (pos : Point3D.t) (jf : JunctionFeature) :
  position (latest_feature obstacle) = Some pos →
  junction_feature (latest_feature obstacle) = Some jf →
  0 < FLAGS_prediction_trajectory_time_resolution flags →
  ego = None ∨ (0 < history_size obstacle)%Z →
  ∃ n : nat, ∀ fuel : nat, (n ≤ fuel)%nat →
  ∃ (v block : list R),
    SetEgoVehicleFeatureValues ego obstacle = Done v
    ∧ length v = EGO_VEHICLE_FEATURE_SIZE
    ∧ (ego = None → v = [100; 100; 0; 0])
    ∧ SetJunctionFeatureValues fuel flags obstacle = Done block
    ∧ length block = JUNCTION_FEATURE_SIZE
    ∧ ExtractFeatureValues fuel flags ego obstacle []
      = Done ([speed (latest_feature obstacle); acc (latest_feature obstacle);
               junction_range jf] ++ v ++ block).
Proof.
  intros Hpos Hjf Hres Hego.
  destruct (SetJunctionFeatureValues_total flags obstacle pos jf Hpos Hjf Hres)
    as [n Hn].
  destruct (SetEgoVehicleFeatureValues_total ego obstacle Hego)
    as (v & Hv & Hlv & Hv0).
  exists n. intros fuel Hfuel. destruct (Hn fuel Hfuel) as (block & Hb & Hlb).
  exists v, block. repeat (split; [assumption|]).
  unfold ExtractFeatureValues, SetObstacleFeatureValues, junction_range_of.
  rewrite Hpos, Hjf. simpl.
  rewrite Hv. simpl. rewrite bool_decide_eq_false_2 by (rewrite Hlv; auto).
  rewrite Hb. simpl. rewrite bool_decide_eq_false_2 by (rewrite Hlb; auto).
  reflexivity.
Qed.

End Extraction.

(** ** The network *)

Section Network.
Context {util : PredictionUtil}.
Local Open Scope R_scope.

Lemma seqZ_head (m len : Z) :
  (0 < len)%Z → seqZ m len = m :: seqZ (Z.succ m) (Z.pred len).
Proof. intros H. apply seqZ_cons. exact H. Qed.

(** The first layer reads its input from the vector that was only
    reserved: the read of its first entry is out of range. *)
Lemma neuron_output_of_nothing (l : Layer) (w b : R) (row0 bs : list R)
    (rows : list (list R)) :
  layer_input_weight l = (w :: row0) :: rows →
  layer_bias l = b :: bs →
  neuron_output l [] 0 = Fault OutOfRange.
Proof.
  intros Hw Hb. unfold neuron_output. rewrite Hw, Hb. simpl.
  rewrite seqZ_head by lia. simpl. reflexivity.
Qed.

Lemma first_layer_step_of_nothing (model : FnnVehicleModel) (l : Layer)
    (ls : list Layer) (w b : R) (row0 bs : list R) (rows : list (list R)) :
  layer model = l :: ls →
  layer_input_weight l = (w :: row0) :: rows →
  layer_bias l = b :: bs →
  layer_step model ([], []) 0 = Fault OutOfRange.
Proof.
  intros Hl Hw Hb. unfold layer_step.
  rewrite bool_decide_eq_false_2 by lia.
  rewrite Hl. simpl. rewrite Hw. simpl.
  rewrite seqZ_head by lia. simpl.
  rewrite (neuron_output_of_nothing l w b row0 bs rows Hw Hb). reflexivity.
Qed.

(** C4 (the code at the failing input): [ComputeProbability] never reads
    the feature values.  Its result is the same for any two feature
    vectors of the same length, and for a model whose first layer has a
    neuron, a weight and a bias, the first layer reads the empty
    [layer_input], out of range. *)
Theorem ComputeProbability_ignores_feature_values
    (model : FnnVehicleModel) (feature_values other_values : list R)
    (l : Layer) (ls : list Layer) (w b : R) (row0 bs : list R)
    (rows : list (list R)) :
  length other_values = length feature_values →
  dim_input model = Z.of_nat (length feature_values) →
  (0 < num_layer model)%Z →
  layer model = l :: ls →
  layer_input_weight l = (w :: row0) :: rows →
  layer_bias l = b :: bs →
  ComputeProbability model feature_values = ComputeProbability model other_values
  ∧ ComputeProbability model feature_values = Fault OutOfRange.
Proof.
  intros Hlen Hdim Hn Hl Hw Hb. split.
  - unfold ComputeProbability. rewrite Hlen. reflexivity.
  - unfold ComputeProbability.
    rewrite bool_decide_eq_false_2 by (intros H; apply H; exact Hdim).
    rewrite seqZ_head by exact Hn. simpl.
    rewrite (first_layer_step_of_nothing model l ls w b row0 bs rows Hl Hw Hb).
    reflexivity.
Qed.

(** *** The loop over the layers against the forward pass of the spec *)

Lemma weighted_sum_from (rows : list (list R)) (input : list R) (col : nat) :
  ∀ (suf pre : list (list R)) (isuf ipre : list R) (acc : R),
  rows = pre ++ suf → input = ipre ++ isuf →
  length ipre = length pre → (length suf ≤ length isuf)%nat →
  (∀ row, row ∈ suf → (col < length row)%nat) →
  foldM (λ neuron_output row,
           r ← at_ rows row;
           weight ← at_ r (Z.of_nat col);
           x ← at_ input row;
           Done (neuron_output + x * weight))
        acc (seqZ (Z.of_nat (length pre)) (Z.of_nat (length suf)))
  = Done (foldl (λ sum '(x, row), sum + x * default 0 (row !! col))
                acc (zip isuf suf)).
Proof.
  induction suf as [|r suf IH]; intros pre isuf ipre acc Hrows Hinput Hlen Hle Hcol.
  - simpl. destruct isuf; reflexivity.
  - destruct isuf as [|x isuf]; [simpl in Hle; lia|].
    rewrite seqZ_cons by (simpl; lia). simpl foldM.
    rewrite Hrows at 1. rewrite at_middle, bind_Done.
    destruct (lookup_lt_is_Some_2 r col) as [w Hw]; [apply Hcol; left|].
    rewrite (at_nat r col w Hw), bind_Done.
    rewrite Hinput at 1. rewrite <- Hlen, at_middle, bind_Done, bind_Done.
    simpl zip. simpl foldl. rewrite Hw. simpl default.
    replace (Z.succ (Z.of_nat (length ipre))) with (Z.of_nat (length (pre ++ [r])))
      by (rewrite length_app; simpl; lia).
    replace (Z.pred (Z.of_nat (S (length suf)))) with (Z.of_nat (length suf))
      by lia.
    apply (IH (pre ++ [r]) isuf (ipre ++ [x])).
    + rewrite <- app_assoc. exact Hrows.
    + rewrite <- app_assoc. exact Hinput.
    + rewrite !length_app. simpl. lia.
    + simpl in Hle. lia.
    + intros row Hrow. apply Hcol. right. exact Hrow.
Qed.

Lemma neuron_output_refines (l : Layer) (input : list R) (col : nat) :
  layer_fits l input →
  (col < length (default [] (head (layer_input_weight l))))%nat →
  neuron_output l input (Z.of_nat col)
  = Done (per_neuron l (spec_neuron l input col)).
Proof.
  intros (Hne & Hrows & Hbias & Hin) Hcol. unfold neuron_output, spec_neuron.
  destruct (lookup_lt_is_Some_2 (layer_bias l) col) as [b Hb]; [lia|].
  rewrite (at_nat _ col b Hb), bind_Done, Hb. simpl default.
  pose proof (weighted_sum_from (layer_input_weight l) input col
                (layer_input_weight l) [] input [] b
                eq_refl eq_refl eq_refl Hin) as Hsum.
  change (Z.of_nat (length (@nil (list R)))) with 0%Z in Hsum.
  rewrite Hsum.
  - reflexivity.
  - intros row Hrow. specialize (Hrows row Hrow). lia.
Qed.

Lemma layer_outputs_from (l : Layer) (input : list R) :
  layer_fits l input →
  ∀ (n k : nat) (out : list R),
  (k + n ≤ length (default [] (head (layer_input_weight l))))%nat →
  foldM (λ out col, v ← neuron_output l input col; Done (out ++ [v]))
        out (seqZ (Z.of_nat k) (Z.of_nat n))
  = Done (out ++ ((λ col, per_neuron l (spec_neuron l input col)) <$> seq k n)).
Proof.
  intros Hfit. induction n as [|n IH]; intros k out Hk.
  - simpl. rewrite app_nil_r. reflexivity.
  - rewrite seqZ_cons by lia. simpl foldM.
    rewrite neuron_output_refines by (assumption || lia).
    rewrite !bind_Done.
    replace (Z.succ (Z.of_nat k)) with (Z.of_nat (S k)) by lia.
    replace (Z.pred (Z.of_nat (S n))) with (Z.of_nat n) by lia.
    rewrite IH by lia. simpl. rewrite <- app_assoc. reflexivity.
Qed.

(** One turn of the loop over the layers is the layer of the spec,
    applied to the input the turn reads. *)
Lemma layer_step_refines (model : FnnVehicleModel) (st : list R * list R)
    (i : Z) (l : Layer) :
  at_ (layer model) i = Done l →
  (i > 0)%Z ∨ st.2 = [] →
  let input := if bool_decide (i > 0)%Z then st.2 else st.1 in
  layer_fits l input →
  layer_step model st i = Done (input, spec_layer l input).
Proof.
  intros Hl Hi input Hfit. unfold layer_step.
  assert ((if bool_decide (i > 0)%Z then (st.2, []) else st) = (input, [])) as ->.
  { unfold input. case_bool_decide as Hpos; [reflexivity|].
    destruct Hi as [Hi|Hi]; [lia|]. destruct st as [a b]. simpl in *.
    rewrite Hi. reflexivity. }
  rewrite Hl, bind_Done.
  destruct Hfit as (Hne & Hrest).
  destruct (layer_input_weight l) as [|row0 rows] eqn:Hw; [contradiction|].
  change (at_ (row0 :: rows) 0) with (Done row0). rewrite bind_Done.
  assert (layer_fits l input) as Hfit.
  { unfold layer_fits. rewrite Hw. split; [discriminate | exact Hrest]. }
  pose proof (layer_outputs_from l input Hfit (length row0) 0 []) as Hout.
  rewrite Hw in Hout. change (Z.of_nat 0) with 0%Z in Hout.
  rewrite Hout by (simpl; lia).
  rewrite bind_Done. unfold spec_layer. rewrite Hw. simpl head. simpl default.
  f_equal. f_equal. unfold per_neuron. simpl app.
  destruct (layer_activation_func l); rewrite <- ?list_fmap_compose;
    reflexivity.
Qed.

Lemma layers_from (model : FnnVehicleModel) (extra : list Layer) :
  ∀ (suf : list Layer) (l : Layer) (pre : list Layer) (st : list R * list R)
    (input : list R),
  layer model = pre ++ l :: suf ++ extra →
  (Z.of_nat (length pre) > 0)%Z ∨ st.2 = [] →
  input = (if bool_decide (Z.of_nat (length pre) > 0)%Z then st.2 else st.1) →
  layers_fit input (l :: suf) →
  ∃ st' : list R * list R,
    foldM (layer_step model) st
      (seqZ (Z.of_nat (length pre)) (Z.of_nat (S (length suf)))) = Done st'
    ∧ st'.2 = foldl (λ input l, spec_layer l input) input (l :: suf).
Proof.
  induction suf as [|l2 suf IH]; intros l pre st input Hlayers Hst Hinput [Hfit Hrest].
  - rewrite seqZ_cons by lia. simpl foldM.
    rewrite (layer_step_refines model st (Z.of_nat (length pre)) l).
    + rewrite bind_Done. eexists. split; [reflexivity|]. simpl. rewrite Hinput.
      reflexivity.
    + rewrite Hlayers. apply at_middle.
    + exact Hst.
    + rewrite <- Hinput. exact Hfit.
  - rewrite seqZ_cons by lia. simpl foldM.
    rewrite (layer_step_refines model st (Z.of_nat (length pre)) l).
    + rewrite bind_Done.
      destruct (IH l2 (pre ++ [l])
                  (if bool_decide (Z.of_nat (length pre) > 0)%Z then st.2 else st.1,
                   spec_layer l
                     (if bool_decide (Z.of_nat (length pre) > 0)%Z then st.2 else st.1))
                  (spec_layer l input)) as (st' & Hst' & Hout).
      * rewrite <- app_assoc. exact Hlayers.
      * left. rewrite length_app. simpl. lia.
      * rewrite bool_decide_eq_true_2 by (rewrite length_app; simpl; lia).
        simpl. rewrite Hinput. reflexivity.
      * exact Hrest.
      * exists st'. split; [|rewrite Hout; reflexivity].
        rewrite <- Hst'. f_equal. f_equal.
        -- rewrite length_app. simpl. lia.
        -- simpl length. lia.
    + rewrite Hlayers. apply at_middle.
    + exact Hst.
    + rewrite <- Hinput. exact Hfit.
Qed.

(** Started from a [layer_input] that holds the feature values, the loop
    over the layers computes the forward pass of the spec. *)
Lemma layers_from_feature_values (model : FnnVehicleModel)
    (feature_values : list R) :
  (0 < num_layer model)%Z →
  (Z.to_nat (num_layer model) ≤ length (layer model))%nat →
  dim_input model = Z.of_nat (length feature_values) →
  layers_fit feature_values (take (Z.to_nat (num_layer model)) (layer model)) →
  ∃ st' : list R * list R,
    foldM (layer_step model) (feature_values, []) (seqZ 0 (num_layer model))
    = Done st'
    ∧ st'.2 = spec_forward model feature_values.
Proof.
  intros Hn Hlen Hdim Hfit.
  unfold spec_forward. rewrite bool_decide_eq_false_2 by (intros H; apply H; exact Hdim).
  destruct (take (Z.to_nat (num_layer model)) (layer model)) as [|l suf] eqn:Htake.
  { apply (f_equal length) in Htake. rewrite length_take in Htake. simpl in Htake. lia. }
  pose proof (take_drop (Z.to_nat (num_layer model)) (layer model)) as Hsplit.
  rewrite Htake in Hsplit.
  assert (num_layer model = Z.of_nat (S (length suf))) as Hnum.
  { apply (f_equal length) in Htake. rewrite length_take in Htake.
    simpl in Htake. lia. }
  destruct (layers_from model (drop (Z.to_nat (num_layer model)) (layer model))
              suf l [] (feature_values, []) feature_values)
    as (st' & Hst' & Hout).
  - simpl. symmetry. exact Hsplit.
  - right. reflexivity.
  - reflexivity.
  - exact Hfit.
  - exists st'. split; [|exact Hout].
    rewrite Hnum. exact Hst'.
Qed.
End Network.

(** At the sample network the spec's forward pass of [5] is
    [Relu (0 + 5 * 1)]; the evaluator's is an out-of-range read. *)
Lemma ComputeProbability_ignores_feature_values_witness :
  (ComputeProbability (util := spec_helpers) Samples.identity_model [5%R]
   = ComputeProbability (util := spec_helpers) Samples.identity_model [7%R]
   ∧ ComputeProbability (util := spec_helpers) Samples.identity_model [5%R]
     = Fault OutOfRange)
  ∧ spec_forward (util := spec_helpers) Samples.identity_model [5%R]
    = [spec_util.Relu (0 + 5 * 1)%R].
Proof.
  split.
  - apply (ComputeProbability_ignores_feature_values (util := spec_helpers)
             Samples.identity_model [5%R] [7%R] Samples.identity_layer []
             1%R 0%R [] [] []); reflexivity || lia.
  - reflexivity.
Defined.

(** ** Evaluate *)

Section Evaluation.
Context {util : PredictionUtil}.
Local Open Scope R_scope.

Lemma blend_exit_of_nothing (f : Feature) (m : gmap string R) (e : JunctionExit) :
  blend_exit f [] m e = Fault OutOfRange.
Proof. unfold blend_exit. rewrite (at_nil (blend_sector f e)). reflexivity. Qed.

(** What [Evaluate] does once it has a junction feature with an exit. *)
Lemma Evaluate_with_exits (fuel : nat) (flags : Flags) (model : FnnVehicleModel)
    (ego : option PerceptionObstacle) (obstacle : Obstacle)
    (jf : JunctionFeature) (e : JunctionExit) (rest : list JunctionExit) :
  IsInitialized (latest_feature obstacle) = true →
  junction_feature (latest_feature obstacle) = Some jf →
  junction_exit jf = e :: rest →
  FLAGS_prediction_offline_mode flags ≠ 2%Z →
  Evaluate fuel flags model ego obstacle
  = (feature_values ← ExtractFeatureValues fuel flags ego obstacle [];
     probability ← exit_probability model jf feature_values;
     let jf' := add_junction_mlp_probability probability jf in
     let f' := with_junction_feature jf' (latest_feature obstacle) in
     if bool_decide (length (lane_sequence (lane_graph f')) = 0%nat)
     then Done (with_latest_feature f' obstacle, None)
     else
       junction_exit_prob ← foldM (blend_exit f' probability) ∅ (junction_exit jf');
       Done (with_latest_feature
               (with_lane_graph
                  (assign_lane_graph junction_exit_prob (lane_graph f')) f')
               obstacle, None)).
Proof.
  intros Hinit Hjf Hexits Hmode. unfold Evaluate.
  rewrite Hinit, Hjf. simpl.
  rewrite bool_decide_eq_false_2 by (rewrite Hexits; simpl; lia).
  destruct (ExtractFeatureValues fuel flags ego obstacle []) as [fv|]; simpl;
    [|reflexivity].
  rewrite bool_decide_eq_false_2 by exact Hmode.
  reflexivity.
Qed.

(** C3 (the code at the failing input): for an obstacle whose current
    feature has no position the obstacle feature extraction returns the
    empty vector and [ExtractFeatureValues] returns early; [Evaluate]
    goes on with the empty feature vector.  With one exit it reads
    [feature_values[3]]; with several exits, a network that takes an
    input and a lane sequence, it reads [probability[idx]] of the empty
    probability vector.  Either read is out of range. *)
Theorem missing_position_is_not_a_no_op (fuel : nat) (flags : Flags)
    (model : FnnVehicleModel) (ego : option PerceptionObstacle)
    (obstacle : Obstacle) (jf : JunctionFeature) (e : JunctionExit)
    (rest : list JunctionExit) :
  IsInitialized (latest_feature obstacle) = true →
  position (latest_feature obstacle) = None →
  junction_feature (latest_feature obstacle) = Some jf →
  junction_exit jf = e :: rest →
  FLAGS_prediction_offline_mode flags ≠ 2%Z →
  rest = [] ∨ (dim_input model ≠ 0%Z
               ∧ lane_sequence (lane_graph (latest_feature obstacle)) ≠ []) →
  SetObstacleFeatureValues obstacle = []
  ∧ ExtractFeatureValues fuel flags ego obstacle [] = Done []
  ∧ Evaluate fuel flags model ego obstacle = Fault OutOfRange.
Proof.
  intros Hinit Hpos Hjf Hexits Hmode Hcase.
  assert (SetObstacleFeatureValues obstacle = []) as Ho.
  { unfold SetObstacleFeatureValues. rewrite Hpos. reflexivity. }
  assert (ExtractFeatureValues fuel flags ego obstacle [] = Done []) as Hx.
  { unfold ExtractFeatureValues. rewrite Ho. reflexivity. }
  do 2 (split; [assumption|]).
  rewrite (Evaluate_with_exits fuel flags model ego obstacle jf e rest)
    by assumption.
  rewrite Hx. simpl. unfold exit_probability. rewrite Hexits.
  destruct Hcase as [-> | [Hdim Hlanes]].
  - rewrite (bool_decide_eq_false_2 (Z.of_nat (length [e]) > 1)%Z)
      by (simpl; lia).
    rewrite seqZ_head by lia. reflexivity.
  - destruct rest as [|e2 rest].
    + rewrite (bool_decide_eq_false_2 (Z.of_nat (length [e]) > 1)%Z)
        by (simpl; lia).
      rewrite seqZ_head by lia. reflexivity.
    + rewrite (bool_decide_eq_true_2 (Z.of_nat (length (e :: e2 :: rest)) > 1)%Z)
        by (simpl length; lia).
      unfold ComputeProbability.
      rewrite (bool_decide_eq_true_2 (dim_input model ≠ Z.of_nat (length (@nil R))))
        by exact Hdim.
      simpl. rewrite bool_decide_eq_false_2.
      * simpl. rewrite blend_exit_of_nothing. reflexivity.
      * intros H. apply Hlanes. apply nil_length_inv. exact H.
Qed.

(** C2 (the code at the failing input): in an evaluation with several
    exits where the assembled feature vector has its 79 values and the
    network declares another input dimension, [ComputeProbability]
    returns the empty sequence; [Evaluate] then goes on, and for a lane
    graph with a lane sequence it reads [probability[idx]] of the empty
    probability vector, out of range. *)
Theorem dimension_mismatch_is_not_a_no_op (flags : Flags)
    (model : FnnVehicleModel) (ego : option PerceptionObstacle)
    (obstacle : Obstacle) (pos : Point3D.t) (jf : JunctionFeature)
    (e1 e2 : JunctionExit) (rest : list JunctionExit) :
  IsInitialized (latest_feature obstacle) = true →
  position (latest_feature obstacle) = Some pos →
  junction_feature (latest_feature obstacle) = Some jf →
  junction_exit jf = e1 :: e2 :: rest →
  FLAGS_prediction_offline_mode flags ≠ 2%Z →
  0 < FLAGS_prediction_trajectory_time_resolution flags →
  ego = None ∨ (0 < history_size obstacle)%Z →
  dim_input model ≠ 79%Z →
  lane_sequence (lane_graph (latest_feature obstacle)) ≠ [] →
  ∃ n : nat, ∀ fuel : nat, (n ≤ fuel)%nat →
  ∃ feature_values : list R,
    ExtractFeatureValues fuel flags ego obstacle [] = Done feature_values
    ∧ length feature_values = 79%nat
    ∧ ComputeProbability model feature_values = Done []
    ∧ Evaluate fuel flags model ego obstacle = Fault OutOfRange.
Proof.
  intros Hinit Hpos Hjf Hexits Hmode Hres Hego Hdim Hlanes.
  destruct (ExtractFeatureValues_total flags ego obstacle pos jf
              Hpos Hjf Hres Hego) as [n Hn].
  exists n. intros fuel Hfuel.
  destruct (Hn fuel Hfuel) as (v & block & _ & Hlv & _ & _ & Hlb & Hx).
  eexists. split; [exact Hx|].
  assert (length ([speed (latest_feature obstacle); acc (latest_feature obstacle);
                   junction_range jf] ++ v ++ block) = 79%nat) as Hlen.
  { rewrite !length_app, Hlv, Hlb. reflexivity. }
  split; [exact Hlen|].
  assert (ComputeProbability model
            ([speed (latest_feature obstacle); acc (latest_feature obstacle);
              junction_range jf] ++ v ++ block) = Done []) as Hp.
  { unfold ComputeProbability. rewrite Hlen.
    rewrite bool_decide_eq_true_2 by exact Hdim. reflexivity. }
  split; [exact Hp|].
  rewrite (Evaluate_with_exits fuel flags model ego obstacle jf e1 (e2 :: rest))
    by assumption.
  rewrite Hx, bind_Done. unfold exit_probability. rewrite Hexits.
  rewrite (bool_decide_eq_true_2 (Z.of_nat (length (e1 :: e2 :: rest)) > 1)%Z)
    by (simpl length; lia).
  rewrite Hp, bind_Done. simpl. rewrite bool_decide_eq_false_2.
  - rewrite Hexits. simpl. rewrite blend_exit_of_nothing. reflexivity.
  - intros H. apply Hlanes. apply nil_length_inv. exact H.
Qed.

End Evaluation.

Lemma missing_position_is_not_a_no_op_witness :
  position (latest_feature Samples.unlocated) = None
  ∧ SetObstacleFeatureValues Samples.unlocated = []
  ∧ ExtractFeatureValues (util := spec_helpers) 1 Samples.online None
      Samples.unlocated [] = Done []
  ∧ Evaluate (util := spec_helpers) 1 Samples.online Samples.model_of_62_inputs
      None Samples.unlocated = Fault OutOfRange.
Proof.
  split; [reflexivity|].
  apply (missing_position_is_not_a_no_op (util := spec_helpers)
           1 Samples.online Samples.model_of_62_inputs None Samples.unlocated
           (Samples.junction_of [Samples.exit_ahead]) Samples.exit_ahead []);
    try reflexivity.
  - simpl. lia.
  - left. reflexivity.
Defined.

Lemma dimension_mismatch_is_not_a_no_op_witness :
  ∃ n : nat, ∀ fuel : nat, (n ≤ fuel)%nat →
  ∃ feature_values : list R,
    ExtractFeatureValues (util := spec_helpers) fuel Samples.online None
      Samples.at_two_exits [] = Done feature_values
    ∧ length feature_values = 79%nat
    ∧ ComputeProbability (util := spec_helpers) Samples.model_of_62_inputs
        feature_values = Done []
    ∧ Evaluate (util := spec_helpers) fuel Samples.online
        Samples.model_of_62_inputs None Samples.at_two_exits = Fault OutOfRange.
Proof.
  apply (dimension_mismatch_is_not_a_no_op (util := spec_helpers)
           Samples.online Samples.model_of_62_inputs None Samples.at_two_exits
           (Point3D.mk 0 0)
           (Samples.junction_of [Samples.exit_ahead; Samples.exit_left])
           Samples.exit_ahead Samples.exit_left []);
    try reflexivity.
  - simpl. lia.
  - simpl. lra.
  - left. reflexivity.
  - simpl. lia.
  - simpl. discriminate.
Defined.

(** ** The single-exit shortcut *)

Section SingleExit.
Context {util : PredictionUtil}.
Local Open Scope R_scope.

(** With one exit the probability sequence is read off the assembled
    vector at the offsets 3, 9, ..., 69: the first ego value, then
    field 2 (norm_dy, the 3rd of 6) of the sectors 0 to 10. *)
Lemma single_exit_probability (model : FnnVehicleModel) (jf : JunctionFeature)
    (e : JunctionExit) (o0 o1 o2 e0 e1 e2 e3 : R) (block : list R) :
  junction_exit jf = [e] →
  length block = JUNCTION_FEATURE_SIZE →
  exit_probability model jf ([o0; o1; o2] ++ [e0; e1; e2; e3] ++ block)
  = Done (e0 :: ((λ i, default 0 (sector_field block i 2)) <$> seq 0 11)).
Proof.
  intros Hexits Hlen. unfold exit_probability. rewrite Hexits.
  rewrite bool_decide_eq_false_2 by (simpl; lia).
  unfold JUNCTION_FEATURE_SIZE in Hlen.
  do 72 (destruct block as [|? block]; [discriminate Hlen|]).
  destruct block; [|discriminate Hlen].
  reflexivity.
Qed.

(** C1 (the code at the failing input): for an obstacle with a position
    and exactly one exit, where the ego pose is unavailable, [Evaluate]
    skips inference and appends twelve values to the junction feature:
    the ego fallback value 100, then the norm_dy field of the sectors 0
    to 10 of the junction feature block; not the norm_dist field of the
    sectors 0 to 11. *)
Theorem single_exit_sequence_is_shifted (flags : Flags) (model : FnnVehicleModel)
    (obstacle : Obstacle) (pos : Point3D.t) (jf : JunctionFeature)
    (e : JunctionExit) :
  IsInitialized (latest_feature obstacle) = true →
  position (latest_feature obstacle) = Some pos →
  junction_feature (latest_feature obstacle) = Some jf →
  junction_exit jf = [e] →
  FLAGS_prediction_offline_mode flags ≠ 2%Z →
  0 < FLAGS_prediction_trajectory_time_resolution flags →
  ∃ n : nat, ∀ fuel : nat, (n ≤ fuel)%nat →
  ∃ (block : list R) (obstacle' : Obstacle),
    SetJunctionFeatureValues fuel flags obstacle = Done block
    ∧ length block = JUNCTION_FEATURE_SIZE
    ∧ Evaluate fuel flags model None obstacle = Done (obstacle', None)
    ∧ junction_feature (latest_feature obstacle')
      = Some (add_junction_mlp_probability
                (100 :: ((λ i, default 0 (sector_field block i 2)) <$> seq 0 11))
                jf).
Proof.
  intros Hinit Hpos Hjf Hexits Hmode Hres.
  destruct (ExtractFeatureValues_total flags None obstacle pos jf
              Hpos Hjf Hres (or_introl eq_refl)) as [n Hn].
  exists n. intros fuel Hfuel.
  destruct (Hn fuel Hfuel) as (v & block & _ & _ & Hv & Hb & Hlb & Hx).
  rewrite (Hv eq_refl) in Hx.
  exists block.
  rewrite (Evaluate_with_exits fuel flags model None obstacle jf e [])
    by assumption.
  rewrite Hx, bind_Done.
  rewrite (single_exit_probability model jf e _ _ _ _ _ _ _ block Hexits Hlb).
  rewrite bind_Done.
  set (p := 100 :: ((λ i, default 0 (sector_field block i 2)) <$> seq 0 11)).
  cbv zeta.
  case_bool_decide as Hlanes.
  - eexists. repeat (split; [eassumption || reflexivity|]). reflexivity.
  - destruct (blend_exits_total
                (with_junction_feature (add_junction_mlp_probability p jf)
                   (latest_feature obstacle))
                p (junction_exit (add_junction_mlp_probability p jf)) ∅)
      as (m' & -> & _); [reflexivity|].
    rewrite bind_Done.
    eexists. repeat (split; [eassumption || reflexivity|]). reflexivity.
Qed.

End SingleExit.

(** The junction feature block of the sample obstacle with one exit
    straight ahead at distance 1, in a junction of range 2. *)
Lemma sample_junction_block (fuel : nat) (block : list R) :
  SetJunctionFeatureValues (util := spec_helpers) fuel Samples.online
    Samples.at_one_exit = Done block →
  norm_dist_sequence block
  = Some <$> [1 / 2; 1; 1; 1; 1; 1; 1; 1; 1; 1; 1; 1]%R
  ∧ (λ i, default 0%R (sector_field block i 2)) <$> seq 0 11
    = [0; 1; 1; 1; 1; 1; 1; 1; 1; 1; 1]%R.
Proof.
  unfold SetJunctionFeatureValues. simpl.
  unfold junction_exit_step, exit_displacement. simpl.
  rewrite atan2_pos_x_axis by lra.
  rewrite Ropp_0, cos_0, sin_0.
  replace (1 * (1 - 0) - 0 * (0 - 0))%R with 1%R by ring.
  replace (0 * (1 - 0) + 1 * (0 - 0))%R with 0%R by ring.
  rewrite atan2_pos_x_axis by lra. rewrite sector_index_0.
  destruct (exit_cost _ _ _ _ _ _) as [c|]; simpl; [|discriminate].
  intros [= <-].
  unfold norm_dist_sequence, sector_field. simpl.
  replace (1 * 1 + 0 * 0)%R with 1%R by ring. rewrite sqrt_1.
  replace (0 / 2)%R with 0%R by lra.
  split; reflexivity.
Qed.

Lemma single_exit_sequence_is_shifted_witness :
  ∃ n : nat, ∀ fuel : nat, (n ≤ fuel)%nat →
  ∃ (block : list R) (obstacle' : Obstacle),
    SetJunctionFeatureValues (util := spec_helpers) fuel Samples.online
      Samples.at_one_exit = Done block
    ∧ Evaluate (util := spec_helpers) fuel Samples.online
        Samples.model_of_62_inputs None Samples.at_one_exit
      = Done (obstacle', None)
    ∧ junction_mlp_probability <$> junction_feature (latest_feature obstacle')
      = Some [100; 0; 1; 1; 1; 1; 1; 1; 1; 1; 1; 1]%R
    ∧ norm_dist_sequence block
      = Some <$> [1 / 2; 1; 1; 1; 1; 1; 1; 1; 1; 1; 1; 1]%R.
Proof.
  destruct (single_exit_sequence_is_shifted (util := spec_helpers)
              Samples.online Samples.model_of_62_inputs Samples.at_one_exit
              (Point3D.mk 0 0) (Samples.junction_of [Samples.exit_ahead])
              Samples.exit_ahead) as [n Hn];
    try reflexivity.
  - simpl. lia.
  - simpl. lra.
  - exists n. intros fuel Hfuel.
    destruct (Hn fuel Hfuel) as (block & obstacle' & Hb & _ & He & Hjf).
    destruct (sample_junction_block fuel block Hb) as [Hdist Hdy].
    exists block, obstacle'.
    split; [exact Hb|]. split; [exact He|]. split; [|exact Hdist].
    rewrite Hdy in Hjf. rewrite Hjf. reflexivity.
Defined.

(** ** The sector quantisation, again on binary64 *)

Section OnBinary64.
Import PrimFloat.

(** C10 (the code at the failing input): on binary64 the sector of a
    small negative angle is 12, not one of 0 to 11.  For an obstacle
    heading along the negative y axis with an exit straight ahead the
    rotated displacement is (1, -c), where c = 0x1.1a62633145c07p-54 is
    the cosine of the double nearest to pi/2, and the angle is -c:
    [d_idx] is negative, [d_idx + 12] rounds to 12.0, and the six writes
    of lines 294-300 go to the offsets 72 to 77 of the 72-value block.
    The angles -2^-60 and -2^-51 give sector 12 as well; -2^-50 gives
    sector 11. *)
Theorem sector_index_reaches_12_on_binary64 :
  let angle := (-0x1.1a62633145c07p-54)%float in
  let d_idx := ((angle / (2 * Binary64.M_PI)) * 12)%float in
  PrimFloat.ltb d_idx 0 = true
  ∧ PrimFloat.eqb (d_idx + 12) 12 = true
  ∧ Binary64.sector_index angle = Some 12%Z
  ∧ Binary64.sector_index (-0x1p-60)%float = Some 12%Z
  ∧ Binary64.sector_index (-0x1p-51)%float = Some 12%Z
  ∧ Binary64.sector_index (-0x1p-50)%float = Some 11%Z
  ∧ (Z.of_nat JUNCTION_FEATURE_SIZE ≤ 12 * 6)%Z.
Proof. vm_compute. repeat split; discriminate. Qed.

End OnBinary64.

(** ** What [Evaluate] leaves alone *)

Section Frame.
Context {util : PredictionUtil}.
Local Open Scope R_scope.

Lemma blend_exit_inv (f : Feature) (p : list R) (m m' : gmap string R)
    (e : JunctionExit) :
  blend_exit f p m e = Done m' → ∃ v : R, m' = <[exit_lane_id e := v]> m.
Proof.
  unfold blend_exit. intros H.
  destruct (at_ p (blend_sector f e)) as [a|]; [|discriminate H].
  rewrite bind_Done in H.
  match type of H with context [at_ p ?i ≫= _] =>
    destruct (at_ p i) as [b|]; [|discriminate H] end.
  rewrite bind_Done in H.
  match type of H with context [at_ p ?i ≫= _] =>
    destruct (at_ p i) as [c|]; [|discriminate H] end.
  rewrite bind_Done in H. injection H as <-. eauto.
Qed.

(** The exit map has no keys but the lane ids of the exits. *)
Lemma blend_exits_keys (f : Feature) (p : list R) (exits : list JunctionExit) :
  ∀ m m' : gmap string R,
  foldM (blend_exit f p) m exits = Done m' →
  ∀ lane : string,
    (∀ e : JunctionExit, e ∈ exits → exit_lane_id e ≠ lane) →
    m' !! lane = m !! lane.
Proof.
  induction exits as [|e exits IH]; intros m m' Hfold lane Hlane; simpl in Hfold.
  - injection Hfold as <-. reflexivity.
  - destruct (blend_exit f p m e) as [m1|] eqn:Hstep; simpl in Hfold;
      [|discriminate].
    destruct (blend_exit_inv f p m m1 e Hstep) as [v ->].
    rewrite (IH _ _ Hfold lane).
    + apply lookup_insert_ne. apply Hlane. left.
    + intros e' He'. apply Hlane. right. exact He'.
Qed.

(** X6: whenever [Evaluate] returns, a lane sequence none of whose
    segments lies on the lane of an exit is as it was, probability
    included. *)
Lemma Evaluate_keeps_unmatched_lane_sequences (fuel : nat) (flags : Flags)
    (model : FnnVehicleModel) (ego : option PerceptionObstacle)
    (obstacle obstacle' : Obstacle) (log : option DataForLearning)
    (i : nat) (s : LaneSequence) :
  Evaluate fuel flags model ego obstacle = Done (obstacle', log) →
  lane_sequence (lane_graph (latest_feature obstacle)) !! i = Some s →
  (∀ (seg : LaneSegment) (jf : JunctionFeature) (e : JunctionExit),
     seg ∈ lane_segment s →
     junction_feature (latest_feature obstacle) = Some jf →
     e ∈ junction_exit jf →
     exit_lane_id e ≠ lane_id seg) →
  lane_sequence (lane_graph (latest_feature obstacle')) !! i = Some s.
Proof.
  intros Heval Hi Hunmatched. unfold Evaluate in Heval.
  destruct (IsInitialized (latest_feature obstacle)); simpl in Heval;
    [|injection Heval as <- _; exact Hi].
  destruct (junction_feature (latest_feature obstacle)) as [jf|] eqn:Hjf;
    [|injection Heval as <- _; exact Hi].
  case_bool_decide; [injection Heval as <- _; exact Hi|].
  destruct (ExtractFeatureValues fuel flags ego obstacle []) as [fv|];
    simpl in Heval; [|discriminate].
  case_bool_decide; [injection Heval as <- _; exact Hi|].
  destruct (exit_probability model jf fv) as [p|]; simpl in Heval; [|discriminate].
  case_bool_decide; [injection Heval as <- _; exact Hi|].
  destruct (foldM _ ∅ (junction_exit jf)) as [m|] eqn:Hm; simpl in Heval;
    [|discriminate].
  injection Heval as <- _. simpl.
  rewrite list_lookup_fmap, Hi. simpl. f_equal.
  unfold assign_lane_sequence. apply scan_no_match.
  intros seg Hseg.
  rewrite (blend_exits_keys _ _ _ _ _ Hm (lane_id seg)); [apply lookup_empty|].
  intros e He. apply (Hunmatched seg jf e); auto.
Qed.

End Frame.

(** * Further properties of the code *)

(** ** The mean of a range *)

Section Mean.
Context {D : Type} (zero : D) (add : D → D → D) (div_count : D → Z → D).

Lemma ComputeMean_loop_spec (rest : list D) :
  ∀ (i end_ : nat) (sum : D) (count : Z),
  ComputeMean_loop add rest i end_ sum count
  = (foldl add sum (take (S end_ - i) rest),
     (count + Z.of_nat (length (take (S end_ - i) rest)))%Z).
Proof.
  induction rest as [|v rest IH]; intros i end_ sum count; simpl.
  - rewrite take_nil. simpl. f_equal. lia.
  - case_bool_decide as Hi.
    + rewrite IH. replace (S end_ - i)%nat with (S (S end_ - S i)) by lia.
      simpl. f_equal. lia.
    + replace (S end_ - i)%nat with 0%nat by lia. simpl. f_equal. lia.
Qed.

Lemma length_mean_window (nums : list D) (start end_ : nat) :
  length (mean_window nums start end_)
  = (S end_ `min` length nums - start)%nat.
Proof. unfold mean_window. rewrite length_take, length_drop. lia. Qed.

Lemma ComputeMean_in_window (nums : list D) (start end_ : nat) :
  ComputeMean_in zero add div_count nums start end_
  = match mean_window nums start end_ with
    | [] => zero
    | _ :: _ =>
      div_count (foldl add zero (mean_window nums start end_))
                (Z.of_nat (length (mean_window nums start end_)))
    end.
Proof.
  unfold ComputeMean_in, mean_window. rewrite ComputeMean_loop_spec.
  set (w := take (S end_ - start) (drop start nums)).
  destruct w as [|v w'] eqn:Hw.
  - reflexivity.
  - rewrite Z.add_0_l.
    rewrite bool_decide_eq_false_2 by (simpl length; lia).
    reflexivity.
Qed.

(** An empty range gives the value 0.0, in whatever arithmetic. *)
Lemma ComputeMean_in_of_empty_range (nums : list D) (start end_ : nat) :
  (end_ < start)%nat ∨ (length nums ≤ start)%nat →
  ComputeMean_in zero add div_count nums start end_ = zero.
Proof.
  intros H. rewrite ComputeMean_in_window.
  assert (mean_window nums start end_ = []) as ->; [|reflexivity].
  apply nil_length_inv. rewrite length_mean_window. lia.
Qed.

(** X2: [ComputeMean] is the sum of the entries [nums[start]] to
    [nums[end]], the range being cut at the end of the vector,
    accumulated from 0.0 in the order of the indices and divided by
    their number; entries outside the range play no part.  This holds
    in whatever arithmetic the additions and the division are done, on
    binary64 as on the real numbers. *)
Theorem ComputeMean_over_the_window (nums : list D) (start end_ : nat) :
  let w := mean_window nums start end_ in
  length w = (S end_ `min` length nums - start)%nat
  ∧ (∀ k : nat, w !! k = if bool_decide (start + k ≤ end_)%nat
                         then nums !! (start + k)%nat else None)
  ∧ ComputeMean_in zero add div_count nums start end_
    = match w with
      | [] => zero
      | _ :: _ => div_count (foldl add zero w) (Z.of_nat (length w))
      end
  ∧ ComputeMean_in zero add div_count nums start end_
    = ComputeMean_in zero add div_count w 0 end_.
Proof.
  intros w.
  assert (length w = (S end_ `min` length nums - start)%nat) as Hlen
    by apply length_mean_window.
  split; [exact Hlen|]. split.
  { intros k. unfold w, mean_window. case_bool_decide as Hk.
    - rewrite lookup_take_lt by lia. apply lookup_drop.
    - apply lookup_take_ge. lia. }
  split; [apply ComputeMean_in_window|].
  rewrite !ComputeMean_in_window. fold w.
  assert (mean_window w 0 end_ = w) as ->; [|reflexivity].
  unfold mean_window. rewrite drop_0. apply take_ge. lia.
Qed.

End Mean.

Section MeanOfReals.
Local Open Scope R_scope.

(** X1: [ComputeMean] returns 0, and divides by nothing, when the range
    is empty: when [end] is before [start], or [start] is not an index
    of the vector. *)
Theorem ComputeMean_of_empty_range (nums : list R) (start end_ : nat) :
  (end_ < start)%nat ∨ (length nums ≤ start)%nat →
  ComputeMean nums start end_ = 0.
Proof.
  intros H. unfold ComputeMean.
  apply ComputeMean_in_of_empty_range. exact H.
Qed.

End MeanOfReals.

Lemma ComputeMean_of_empty_range_witness :
  ComputeMean Samples.readings 2 1 = 0%R
  ∧ ComputeMean Samples.readings 3 5 = 0%R.
Proof.
  split.
  - apply (ComputeMean_of_empty_range Samples.readings 2 1). left. lia.
  - apply (ComputeMean_of_empty_range Samples.readings 3 5). right. simpl. lia.
Defined.

Section MeanOnBinary64.
Import PrimFloat.

(** On binary64 the mean of three entries 0.1 is 0.10000000000000002,
    above each of them: each addition and the division round. *)
Lemma mean_of_three_tenths_on_binary64 :
  let tenth := 0x1.999999999999ap-4%float in
  let mean := Binary64.ComputeMean [tenth; tenth; tenth] 0 2 in
  mean = 0x1.999999999999bp-4%float ∧ (tenth <? mean)%float = true.
Proof. vm_compute. split; reflexivity. Qed.

End MeanOnBinary64.

(** ** The check of the history size and the sampling loop *)

Section Faults.
Context {util : PredictionUtil}.
Local Open Scope R_scope.

Lemma foldM_invariant {S A : Type} (P : S → Prop) (body : S → A → outcome S) :
  (∀ s a s', P s → body s a = Done s' → P s') →
  ∀ (l : list A) (s s' : S), P s → foldM body s l = Done s' → P s'.
Proof.
  intros Hbody. induction l as [|a l IH]; intros s s' Hs H.
  - injection H as <-. exact Hs.
  - simpl in H. destruct (body s a) as [s1|] eqn:Ha; [|discriminate].
    exact (IH _ _ (Hbody _ _ _ Hs Ha) H).
Qed.

(** With a time resolution that is not positive the sample time never
    passes the exit time. *)
Lemma trajectory_cost_stalls (fuel : nat) (res : R) (xc yc : Coeffs) (T : R) :
  res <= 0 → ∀ t cost : R, t <= T →
  trajectory_cost fuel res xc yc T t cost = Fault OutOfFuel.
Proof.
  intros Hres. induction fuel as [|fuel IH]; intros t cost Ht; [reflexivity|].
  simpl. destruct (Rle_dec t T) as [_|H]; [|lra]. apply IH. lra.
Qed.

Lemma exit_time_nonneg (a b v : R) : 0 <= cmath.hypot a b / cmath.max 0.1 v.
Proof.
  unfold cmath.hypot, cmath.max.
  pose proof (sqrt_pos (a * a + b * b)).
  destruct (Rlt_dec 0.1 v); apply Rle_mult_inv_pos; lra.
Qed.

Lemma exit_cost_stalls (fuel : nat) (res : R) (f : Feature) (x y dh : R) :
  res <= 0 → exit_cost fuel res f x y dh = Fault OutOfFuel.
Proof.
  intros Hres. unfold exit_cost. apply trajectory_cost_stalls; [exact Hres|].
  apply exit_time_nonneg.
Qed.

(** X7: for an obstacle with an initialized latest feature, a junction
    feature with an exit and a position, [Evaluate] stops at
    [CHECK_GT(history_size, 0)] of line 213 when the ego pose is
    available and the obstacle's history size is not positive: in every
    mode, offline mode 2 included, for every model, and before any
    junction feature is computed. *)
Theorem Evaluate_check_failure (fuel : nat) (flags : Flags)
    (model : FnnVehicleModel) (pose : PerceptionObstacle)
    (obstacle : Obstacle) (jf : JunctionFeature) :
  IsInitialized (latest_feature obstacle) = true →
  junction_feature (latest_feature obstacle) = Some jf →
  junction_exit jf ≠ [] →
  is_Some (position (latest_feature obstacle)) →
  (history_size obstacle ≤ 0)%Z →
  SetEgoVehicleFeatureValues (Some pose) obstacle = Fault CheckFailed
  ∧ ExtractFeatureValues fuel flags (Some pose) obstacle [] = Fault CheckFailed
  ∧ Evaluate fuel flags model (Some pose) obstacle = Fault CheckFailed.
Proof.
  intros Hinit Hjf Hex [pos Hpos] Hhist.
  assert (SetEgoVehicleFeatureValues (Some pose) obstacle = Fault CheckFailed)
    as He.
  { unfold SetEgoVehicleFeatureValues.
    rewrite bool_decide_eq_false_2 by lia. reflexivity. }
  assert (ExtractFeatureValues fuel flags (Some pose) obstacle []
          = Fault CheckFailed) as Hx.
  { unfold ExtractFeatureValues, SetObstacleFeatureValues. rewrite Hpos.
    rewrite bool_decide_eq_false_2 by (intros Hne; apply Hne; reflexivity).
    rewrite He. reflexivity. }
  split; [exact He|]. split; [exact Hx|].
  unfold Evaluate. rewrite Hinit, Hjf. simpl.
  rewrite bool_decide_eq_false_2
    by (destruct (junction_exit jf); [congruence|simpl; lia]).
  rewrite Hx. reflexivity.
Qed.

(** X9: with a time resolution that is zero or negative the sampling
    loop of the first exit never ends: for an obstacle with a position
    and a junction feature with an exit, the junction feature extraction
    and [Evaluate] are still sampling whatever fuel they are given. *)
Theorem nonpositive_resolution_never_returns (flags : Flags)
    (model : FnnVehicleModel) (ego : option PerceptionObstacle)
    (obstacle : Obstacle) (jf : JunctionFeature) :
  FLAGS_prediction_trajectory_time_resolution flags <= 0 →
  IsInitialized (latest_feature obstacle) = true →
  is_Some (position (latest_feature obstacle)) →
  junction_feature (latest_feature obstacle) = Some jf →
  junction_exit jf ≠ [] →
  ego = None ∨ (0 < history_size obstacle)%Z →
  ∀ fuel : nat,
    SetJunctionFeatureValues fuel flags obstacle = Fault OutOfFuel
    ∧ Evaluate fuel flags model ego obstacle = Fault OutOfFuel.
Proof.
  intros Hres Hinit [pos Hpos] Hjf Hex Hego fuel.
  assert (SetJunctionFeatureValues fuel flags obstacle = Fault OutOfFuel) as Hj.
  { unfold SetJunctionFeatureValues. rewrite Hpos, Hjf.
    destruct (junction_exit jf) as [|e rest]; [congruence|].
    simpl. unfold junction_exit_step. rewrite exit_cost_stalls by exact Hres.
    reflexivity. }
  split; [exact Hj|].
  assert (ExtractFeatureValues fuel flags ego obstacle [] = Fault OutOfFuel)
    as Hx.
  { unfold ExtractFeatureValues, SetObstacleFeatureValues. rewrite Hpos.
    rewrite bool_decide_eq_false_2 by (intros Hne; apply Hne; reflexivity).
    destruct (SetEgoVehicleFeatureValues_total ego obstacle Hego)
      as (v & -> & Hlen & _).
    rewrite bind_Done.
    rewrite bool_decide_eq_false_2 by (intros Hne; apply Hne; exact Hlen).
    rewrite Hj. reflexivity. }
  unfold Evaluate. rewrite Hinit, Hjf. simpl.
  rewrite bool_decide_eq_false_2
    by (destruct (junction_exit jf); [congruence|simpl; lia]).
  rewrite Hx. reflexivity.
Qed.

End Faults.

Lemma Evaluate_check_failure_witness :
  Evaluate (util := spec_helpers) 0 Samples.offline Samples.identity_model
    (Some Samples.ego_pose) Samples.without_history = Fault CheckFailed.
Proof.
  apply (Evaluate_check_failure (util := spec_helpers) 0 Samples.offline
           Samples.identity_model Samples.ego_pose Samples.without_history
           (Samples.junction_of [Samples.exit_ahead; Samples.exit_left])).
  - reflexivity.
  - reflexivity.
  - discriminate.
  - eexists. reflexivity.
  - simpl. lia.
Defined.

Lemma nonpositive_resolution_never_returns_witness :
  SetJunctionFeatureValues (util := spec_helpers) 1000 Samples.zero_resolution
    Samples.at_two_exits = Fault OutOfFuel
  ∧ Evaluate (util := spec_helpers) 1000 Samples.zero_resolution
      Samples.identity_model None Samples.at_two_exits = Fault OutOfFuel.
Proof.
  apply (nonpositive_resolution_never_returns (util := spec_helpers)
           Samples.zero_resolution Samples.identity_model None
           Samples.at_two_exits
           (Samples.junction_of [Samples.exit_ahead; Samples.exit_left])).
  - simpl. lra.
  - reflexivity.
  - eexists. reflexivity.
  - reflexivity.
  - discriminate.
  - left. reflexivity.
Defined.

(** ** The junction feature block, sector by sector *)

Section JunctionBlock.
Context {util : PredictionUtil}.
Local Open Scope R_scope.

Lemma sector_values_write_other (v : list R) (n k : nat) (p dx dy dist dh c : R) :
  k ≠ n →
  sector_values (write_sector v (Z.of_nat n) p dx dy dist dh c) k
  = sector_values v k.
Proof.
  intros Hk. unfold sector_values, sector_field, write_sector.
  replace (Z.to_nat (Z.of_nat n * 6)) with (n * 6)%nat by lia.
  apply list_fmap_ext. intros i j [-> Hj]%lookup_seq.
  rewrite !list_lookup_insert_ne by lia. reflexivity.
Qed.

Lemma sector_values_write_same (v : list R) (n : nat) (p dx dy dist dh c : R) :
  (n * 6 + 5 < length v)%nat →
  sector_values (write_sector v (Z.of_nat n) p dx dy dist dh c) n
  = Some <$> [p; dx; dy; dist; dh; c].
Proof.
  intros Hn. unfold sector_values, sector_field, write_sector.
  replace (Z.to_nat (Z.of_nat n * 6)) with (n * 6)%nat by lia.
  simpl. rewrite !Nat.add_0_r.
  repeat f_equal.
  - rewrite !list_lookup_insert_ne by lia. apply list_lookup_insert_eq. lia.
  - rewrite !list_lookup_insert_ne by lia. apply list_lookup_insert_eq.
    rewrite !length_insert. lia.
  - rewrite !list_lookup_insert_ne by lia. apply list_lookup_insert_eq.
    rewrite !length_insert. lia.
  - rewrite !list_lookup_insert_ne by lia. apply list_lookup_insert_eq.
    rewrite !length_insert. lia.
  - rewrite !list_lookup_insert_ne by lia. apply list_lookup_insert_eq.
    rewrite !length_insert. lia.
  - apply list_lookup_insert_eq. rewrite !length_insert. lia.
Qed.

Lemma sector_values_default (k : nat) :
  (k < 12)%nat → sector_values default_sectors k = Some <$> [0; 1; 1; 1; 0; 0].
Proof.
  intros Hk.
  do 12 (destruct k as [|k]; [reflexivity|]). lia.
Qed.

(** The six writes for an entry whose index is in range. *)
Lemma write_entry_Done (v : list R) (w : exit_entry) (n : nat) :
  entry_idx w = Z.of_nat n →
  (n * 6 + 5 < length v)%nat →
  write_entry v w
  = Done (write_sector v (Z.of_nat n) 1 (entry_dx w) (entry_dy w)
            (entry_dist w) (entry_dh w) (entry_cost w)).
Proof.
  intros Hidx Hn. unfold write_entry, write_sector. rewrite Hidx.
  replace (Z.to_nat (Z.of_nat n * 6)) with (n * 6)%nat by lia.
  replace (Z.of_nat n * 6)%Z with (Z.of_nat (n * 6)) by lia.
  replace (Z.of_nat (n * 6) + 1)%Z with (Z.of_nat (n * 6 + 1)) by lia.
  replace (Z.of_nat (n * 6) + 2)%Z with (Z.of_nat (n * 6 + 2)) by lia.
  replace (Z.of_nat (n * 6) + 3)%Z with (Z.of_nat (n * 6 + 3)) by lia.
  replace (Z.of_nat (n * 6) + 4)%Z with (Z.of_nat (n * 6 + 4)) by lia.
  replace (Z.of_nat (n * 6) + 5)%Z with (Z.of_nat (n * 6 + 5)) by lia.
  rewrite set_at_nat by lia. rewrite bind_Done.
  rewrite set_at_nat by (rewrite !length_insert; lia). rewrite bind_Done.
  rewrite set_at_nat by (rewrite !length_insert; lia). rewrite bind_Done.
  rewrite set_at_nat by (rewrite !length_insert; lia). rewrite bind_Done.
  rewrite set_at_nat by (rewrite !length_insert; lia). rewrite bind_Done.
  rewrite set_at_nat by (rewrite !length_insert; lia).
  reflexivity.
Qed.

(** An entry whose index is not in 0 to 11 writes outside a block of 72
    values. *)
Lemma write_entry_Fault (v : list R) (w : exit_entry) :
  length v = JUNCTION_FEATURE_SIZE →
  ¬ (0 ≤ entry_idx w ≤ 11)%Z →
  write_entry v w = Fault OutOfRange.
Proof.
  intros Hlen Hidx. unfold write_entry, set_at.
  rewrite bool_decide_eq_false_2; [reflexivity|].
  unfold JUNCTION_FEATURE_SIZE in Hlen. lia.
Qed.

Lemma write_entry_cases (v : list R) (w : exit_entry) :
  length v = JUNCTION_FEATURE_SIZE →
  ((0 ≤ entry_idx w ≤ 11)%Z
   ∧ ∃ v', write_entry v w = Done v'
           ∧ length v' = JUNCTION_FEATURE_SIZE
           ∧ (∀ k : nat, Z.of_nat k ≠ entry_idx w →
                sector_values v' k = sector_values v k)
           ∧ sector_values v' (Z.to_nat (entry_idx w)) = Some <$> entry_values w)
  ∨ (¬ (0 ≤ entry_idx w ≤ 11)%Z ∧ write_entry v w = Fault OutOfRange).
Proof.
  intros Hlen.
  destruct (decide (0 ≤ entry_idx w ≤ 11)%Z) as [Hidx|Hidx];
    [left|right; split; [exact Hidx | apply write_entry_Fault; assumption]].
  split; [exact Hidx|].
  destruct (Z_of_nat_complete (entry_idx w)) as [n Hn]; [lia|].
  unfold JUNCTION_FEATURE_SIZE in Hlen.
  eexists. split; [apply (write_entry_Done v w n Hn); lia|].
  split; [rewrite length_write_sector; exact Hlen|].
  rewrite Hn, Nat2Z.id. split.
  - intros k Hk. apply sector_values_write_other. lia.
  - apply sector_values_write_same. lia.
Qed.

(** The writes for a list of entries, from any block of 72 values. *)
Lemma write_entries_from (ws : list exit_entry) :
  ∀ block : list R,
  length block = JUNCTION_FEATURE_SIZE →
  match foldM write_entry block ws with
  | Done block' =>
    length block' = JUNCTION_FEATURE_SIZE
    ∧ (∀ w, w ∈ ws → (0 ≤ entry_idx w ≤ 11)%Z)
    ∧ (∀ k : nat, (∀ w, w ∈ ws → entry_idx w ≠ Z.of_nat k) →
         sector_values block' k = sector_values block k)
    ∧ (∀ before w after, ws = before ++ w :: after →
         (∀ w', w' ∈ after → entry_idx w' ≠ entry_idx w) →
         sector_values block' (Z.to_nat (entry_idx w)) = Some <$> entry_values w)
  | Fault k =>
    k = OutOfRange ∧ ∃ w, w ∈ ws ∧ ¬ (0 ≤ entry_idx w ≤ 11)%Z
  end.
Proof.
  induction ws as [|x ws IH]; intros block Hlen.
  - simpl. split; [exact Hlen|]. split; [intros w Hw; inversion Hw|].
    split; [reflexivity|]. intros [|? ?] ? ? ?; discriminate.
  - simpl.
    destruct (write_entry_cases block x Hlen)
      as [(Hx & b1 & -> & Hlen1 & Hother & Hsame) | (Hx & ->)].
    + rewrite bind_Done. specialize (IH b1 Hlen1).
      destruct (foldM write_entry b1 ws) as [block'|k].
      * destruct IH as (Hlen' & Hrange & Hkeep & Hlast).
        split; [exact Hlen'|]. split.
        { intros w Hw. apply elem_of_cons in Hw as [->|Hw]; auto. }
        split.
        { intros k Hk.
          rewrite Hkeep by (intros w Hw; apply Hk; right; exact Hw).
          apply Hother. intros Heq. apply (Hk x); [left|congruence]. }
        intros [|y before] w after Heq Hafter.
        -- injection Heq as -> ->.
           rewrite Hkeep; [exact Hsame|].
           intros w' Hw'. rewrite Z2Nat.id by lia. apply Hafter, Hw'.
        -- injection Heq as -> ->. exact (Hlast before w after eq_refl Hafter).
      * destruct IH as (-> & w & Hw & Hbad).
        split; [reflexivity|]. exists w. split; [right; exact Hw | exact Hbad].
    + simpl. split; [reflexivity|]. exists x. split; [left | exact Hx].
Qed.

(** One turn of the loop over the exits is the trajectory cost and then
    the six writes for the entry of the exit. *)
Lemma junction_exit_step_entry (fuel : nat) (res : R) (f : Feature)
    (heading range : R) (block : list R) (e : JunctionExit) :
  junction_exit_step fuel res f heading range block e
  = (cost ← exit_cost fuel res f (exit_displacement f heading e).1
               (exit_displacement f heading e).2
               (AngleDiff heading (exit_heading e));
     write_entry block (entry_of f heading range e cost)).
Proof. reflexivity. Qed.

(** The block of the junction feature extraction is the block of the
    writes for the entries of the exits, in the order of the exits. *)
Lemma junction_exits_entries (fuel : nat) (res : R) (f : Feature)
    (heading range : R) (exits : list JunctionExit) :
  ∀ block block' : list R,
  foldM (junction_exit_step fuel res f heading range) block exits = Done block' →
  ∃ ws : list exit_entry,
    Forall2 (λ e w,
               ∃ cost : R,
                 exit_cost fuel res f (exit_displacement f heading e).1
                   (exit_displacement f heading e).2
                   (AngleDiff heading (exit_heading e)) = Done cost
                 ∧ w = entry_of f heading range e cost)
            exits ws
    ∧ foldM write_entry block ws = Done block'.
Proof.
  induction exits as [|e exits IH]; intros block block' H.
  - exists []. split; [constructor | exact H].
  - simpl in H. rewrite junction_exit_step_entry in H.
    destruct (exit_cost fuel res f (exit_displacement f heading e).1
                (exit_displacement f heading e).2
                (AngleDiff heading (exit_heading e))) as [cost|] eqn:Hc;
      [|discriminate].
    rewrite bind_Done in H.
    destruct (write_entry block (entry_of f heading range e cost)) as [b1|] eqn:Hw;
      [|discriminate].
    rewrite bind_Done in H.
    destruct (IH _ _ H) as (ws & Hws & Hfold).
    exists (entry_of f heading range e cost :: ws). split.
    + constructor; [eauto | exact Hws].
    + simpl. rewrite Hw. exact Hfold.
Qed.

Lemma junction_exits_length (fuel : nat) (res : R) (f : Feature)
    (heading range : R) (exits : list JunctionExit) (block block' : list R) :
  length block = JUNCTION_FEATURE_SIZE →
  foldM (junction_exit_step fuel res f heading range) block exits = Done block' →
  length block' = JUNCTION_FEATURE_SIZE.
Proof.
  intros Hlen H.
  destruct (junction_exits_entries _ _ _ _ _ _ _ _ H) as (ws & _ & Hws).
  pose proof (write_entries_from ws block Hlen) as Hfrom.
  rewrite Hws in Hfrom. apply Hfrom.
Qed.

(** X11: in the junction feature block, a sector that the code computed
    for none of the exits has its default values: absent, the three
    normalised distances 1, heading difference 0 and cost 0.  The sector
    indices are taken as computed; the statement is about the writes of
    lines 294-300 on the block of lines 251-258. *)
Theorem unvisited_sectors_keep_defaults (ws : list exit_entry)
    (block : list R) (k : nat) :
  write_entries ws = Done block →
  (k < 12)%nat →
  (∀ w : exit_entry, w ∈ ws → entry_idx w ≠ Z.of_nat k) →
  sector_values block k = Some <$> [0; 1; 1; 1; 0; 0].
Proof.
  intros Hdone Hk Hno.
  pose proof (write_entries_from ws default_sectors length_default_sectors)
    as Hfrom.
  unfold write_entries in Hdone. rewrite Hdone in Hfrom.
  destruct Hfrom as (_ & _ & Hkeep & _).
  rewrite Hkeep by exact Hno. apply sector_values_default, Hk.
Qed.

(** X12: where the code computed the same sector for several exits, the
    sector holds the values of the last of them in the junction's list:
    the presence flag 1 and the five values computed for that exit;
    earlier exits of the sector leave no trace. *)
Theorem last_exit_of_a_sector_wins (ws before after : list exit_entry)
    (w : exit_entry) (block : list R) :
  write_entries ws = Done block →
  ws = before ++ w :: after →
  (∀ w' : exit_entry, w' ∈ after → entry_idx w' ≠ entry_idx w) →
  (0 ≤ entry_idx w ≤ 11)%Z
  ∧ sector_values block (Z.to_nat (entry_idx w))
    = Some <$> [1; entry_dx w; entry_dy w; entry_dist w; entry_dh w;
                entry_cost w].
Proof.
  intros Hdone Hws Hafter.
  pose proof (write_entries_from ws default_sectors length_default_sectors)
    as Hfrom.
  unfold write_entries in Hdone. rewrite Hdone in Hfrom.
  destruct Hfrom as (_ & Hrange & _ & Hlast).
  split.
  - apply Hrange. rewrite Hws. apply elem_of_app. right. left.
  - exact (Hlast before w after Hws Hafter).
Qed.

(** X13: the writes for the exits either all stay inside the block, and
    then every sector index is in 0 to 11, the block has 72 values and
    the presence flag of each sector is 1 if the code computed the
    sector for some exit and 0 if for none; or some sector index is not
    in 0 to 11 (12, as binary64 gives for some exits straight ahead) and
    a write is out of range. *)
Theorem junction_block_invariant (ws : list exit_entry) :
  match write_entries ws with
  | Done block =>
    (∀ w, w ∈ ws → (0 ≤ entry_idx w ≤ 11)%Z)
    ∧ length block = 72%nat
    ∧ ∀ k : nat, (k < 12)%nat →
      ∃ present dx dy dist dh cost : R,
        sector_values block k = Some <$> [present; dx; dy; dist; dh; cost]
        ∧ ((∃ w, w ∈ ws ∧ entry_idx w = Z.of_nat k) → present = 1)
        ∧ ((∀ w, w ∈ ws → entry_idx w ≠ Z.of_nat k) → present = 0)
  | Fault k =>
    k = OutOfRange ∧ ∃ w, w ∈ ws ∧ ¬ (0 ≤ entry_idx w ≤ 11)%Z
  end.
Proof.
  pose proof (write_entries_from ws default_sectors length_default_sectors)
    as Hfrom.
  unfold write_entries.
  destruct (foldM write_entry default_sectors ws) as [block|k];
    [|exact Hfrom].
  destruct Hfrom as (Hlen & Hrange & Hkeep & Hlast).
  split; [exact Hrange|]. split; [exact Hlen|]. intros k Hk.
  assert ((∀ w, w ∈ ws → entry_idx w ≠ Z.of_nat k)
          ∨ ∃ before w after, ws = before ++ w :: after
              ∧ entry_idx w = Z.of_nat k
              ∧ ∀ w', w' ∈ after → entry_idx w' ≠ Z.of_nat k) as Hcases.
  { clear. induction ws as [|x ws IH].
    - left. intros w Hw. inversion Hw.
    - destruct IH as [Hno | (before & w & after & -> & Hw & Hafter)].
      + destruct (decide (entry_idx x = Z.of_nat k)) as [Hx|Hx].
        * right. exists [], x, ws. auto.
        * left. intros w Hw. apply elem_of_cons in Hw as [->|Hw]; auto.
      + right. exists (x :: before), w, after. auto. }
  destruct Hcases as [Hno | (before & w & after & Hws & Hw & Hafter)].
  - exists 0, 1, 1, 1, 0, 0.
    split; [rewrite (Hkeep k Hno); apply sector_values_default, Hk|].
    split; [|reflexivity].
    intros (w & Hw & Hs). destruct (Hno w Hw Hs).
  - eexists _, _, _, _, _, _. split.
    + rewrite <- (Nat2Z.id k), <- Hw. apply (Hlast before w after Hws).
      intros w' Hw'. rewrite Hw. apply Hafter, Hw'.
    + split; [reflexivity|].
      intros Hno. destruct (Hno w); [|exact Hw].
      rewrite Hws. apply elem_of_app. right. left.
Qed.

(** X14: in exact arithmetic, the displacement of an exit in the
    obstacle's frame is the world displacement turned by the heading:
    turning it back gives the world displacement, and its length is the
    distance from the obstacle to the exit, whatever the heading.  (On
    binary64 the rotation of lines 265-266 does this up to rounding
    only.) *)
Theorem exit_displacement_is_a_rotation (f : Feature) (heading : R)
    (e : JunctionExit) :
  let x := Point3D.x (exit_position e) - Point3D.x (position_of f) in
  let y := Point3D.y (exit_position e) - Point3D.y (position_of f) in
  let d := exit_displacement f heading e in
  cmath.hypot d.1 d.2 = cmath.hypot x y
  ∧ sqrt (d.1 * d.1 + d.2 * d.2) = sqrt (x * x + y * y)
  ∧ cos heading * d.1 - sin heading * d.2 = x
  ∧ sin heading * d.1 + cos heading * d.2 = y.
Proof.
  intros x y d. unfold d, exit_displacement, cmath.hypot. fold x. fold y.
  cbn [fst snd]. rewrite cos_neg, sin_neg.
  pose proof (sin2_cos2 heading) as H. unfold Rsqr in H.
  set (c := cos heading) in *. set (s := sin heading) in *.
  replace ((c * x - - s * y) * (c * x - - s * y)
           + (- s * x + c * y) * (- s * x + c * y))
    with ((s * s + c * c) * (x * x + y * y)) by ring.
  replace (c * (c * x - - s * y) - s * (- s * x + c * y))
    with ((s * s + c * c) * x) by ring.
  replace (s * (c * x - - s * y) + c * (- s * x + c * y))
    with ((s * s + c * c) * y) by ring.
  rewrite H, !Rmult_1_l. repeat split.
Qed.

(** X15: in exact arithmetic the sector of an angle is the index of the
    thirty-degree sector that holds it, a negative angle being taken one
    full turn further: the sector is [k] exactly when the angle is at
    least [k * pi/6] and below [(k + 1) * pi/6]. *)
Theorem sector_index_is_a_thirty_degree_sector (angle : R) (k : Z) :
  sector_index angle = k
  ↔ IZR k * (PI / 6)
    <= (if Rle_dec 0 angle then angle else angle + 2 * PI)
    < (IZR k + 1) * (PI / 6).
Proof.
  unfold sector_index, cmath.floor. rewrite d_idx_scale.
  pose proof PI_RGT_0 as Hpi.
  pose proof six_over_PI_pos as Hq. pose proof six_over_PI_PI as Hqpi.
  assert (∀ b : R, IZR k <= b * (6 / PI) < IZR k + 1
                   ↔ IZR k * (PI / 6) <= b < (IZR k + 1) * (PI / 6)) as Hscale.
  { intros b.
    assert (b = b * (6 / PI) * (PI / 6)) as Hb by (field; lra).
    assert (0 < PI / 6) as Hr by lra.
    split; intros [H1 H2].
    - rewrite Hb. split.
      + apply Rmult_le_compat_r; lra.
      + apply Rmult_lt_compat_r; lra.
    - assert (IZR k = IZR k * (PI / 6) * (6 / PI)) as Hk by (field; lra).
      assert (IZR k + 1 = (IZR k + 1) * (PI / 6) * (6 / PI)) as Hk1
        by (field; lra).
      rewrite Hk1. rewrite Hk at 1. split.
      + apply Rmult_le_compat_r; lra.
      + apply Rmult_lt_compat_r; lra. }
  assert (∀ b : R, Zfloor b = k ↔ IZR k <= b < IZR k + 1) as Hfloor.
  { intros b. split.
    - intros <-. apply Zfloor_bound.
    - apply Zfloor_eq. }
  destruct (Rge_dec (angle * (6 / PI)) 0) as [Hd|Hd];
    destruct (Rle_dec 0 angle) as [Ha|Ha].
  - rewrite Hfloor. apply Hscale.
  - exfalso. nra.
  - exfalso. nra.
  - rewrite Hfloor, <- Hscale.
    replace ((angle + 2 * PI) * (6 / PI)) with (angle * (6 / PI) + 12) by lra.
    reflexivity.
Qed.



End JunctionBlock.

Lemma unvisited_sectors_keep_defaults_witness :
  ∃ block : list R,
    write_entries Samples.entries = Done block
    ∧ sector_values block 5 = Some <$> [0; 1; 1; 1; 0; 0]%R.
Proof.
  eexists. split; [vm_compute; reflexivity|].
  apply (unvisited_sectors_keep_defaults Samples.entries _ 5).
  - vm_compute. reflexivity.
  - lia.
  - intros w Hw. unfold Samples.entries in Hw.
    repeat (apply elem_of_cons in Hw as [->|Hw]; [simpl; lia|]).
    inversion Hw.
Defined.

Lemma last_exit_of_a_sector_wins_witness :
  ∃ block : list R,
    write_entries Samples.entries = Done block
    ∧ sector_values block 0 = Some <$> [1; 0.5; 0.25; 0.75; 0; 7]%R.
Proof.
  eexists. split; [vm_compute; reflexivity|].
  apply (last_exit_of_a_sector_wins Samples.entries
           [Samples.entry_at 0 2; Samples.entry_at 3 5] []
           (Samples.entry_at 0 7)).
  - vm_compute. reflexivity.
  - reflexivity.
  - intros w Hw. inversion Hw.
Defined.


(** ** The network on the empty input *)

Section EmptyInput.
Context {util : PredictionUtil}.
Local Open Scope R_scope.

(** A neuron of a layer with a weight row cannot be computed from the
    empty input. *)
Lemma neuron_output_of_empty (l : Layer) (col : Z) (v : R) :
  neuron_output l [] col = Done v → layer_input_weight l = [].
Proof.
  unfold neuron_output. intros H.
  destruct (layer_input_weight l) as [|r rows]; [reflexivity|].
  exfalso.
  destruct (at_ (layer_bias l) col) as [b|]; [|discriminate].
  rewrite bind_Done in H.
  rewrite seqZ_head in H by (simpl length; lia).
  simpl in H.
  destruct (at_ r col); discriminate.
Qed.

Lemma layer_step_of_empty (model : FnnVehicleModel) (i : Z)
    (st' : list R * list R) :
  Softmax [] false = [] →
  layer_step model ([], []) i = Done st' → st' = ([], []).
Proof.
  intros Hsoft H. unfold layer_step in H.
  assert ((if bool_decide (i > 0)%Z then (([] : list R, [] : list R).2, [])
           else ([], [])) = (([] : list R), ([] : list R))) as Hst
    by (case_bool_decide; reflexivity).
  rewrite Hst in H. clear Hst.
  destruct (at_ (layer model) i) as [l|]; [|discriminate].
  rewrite bind_Done in H.
  destruct (at_ (layer_input_weight l) 0) as [row0|] eqn:Hrow0; [|discriminate].
  rewrite bind_Done in H.
  destruct row0 as [|w row0].
  - simpl in H. injection H as <-.
    destruct (layer_activation_func l); rewrite ?Hsoft; reflexivity.
  - exfalso. rewrite seqZ_head in H by (simpl length; lia).
    simpl in H.
    destruct (neuron_output l [] 0) as [v|] eqn:Hv; [|discriminate].
    apply neuron_output_of_empty in Hv. rewrite Hv in Hrow0.
    rewrite at_nil in Hrow0. discriminate.
Qed.

(** The loop over the layers, started on the empty input and the empty
    output, ends as it started. *)
Lemma layers_of_empty (model : FnnVehicleModel) (layers : list Z)
    (st : list R * list R) :
  Softmax [] false = [] →
  foldM (layer_step model) ([], []) layers = Done st → st = ([], []).
Proof.
  intros Hsoft.
  apply (foldM_invariant (λ st, st = ([], []))); [|reflexivity].
  intros s i s' -> Hs. exact (layer_step_of_empty _ _ _ Hsoft Hs).
Qed.

(** X17: [ComputeProbability] never returns a probability.  Its layers
    start from the empty [layer_input], so whenever it returns without
    an index out of range, what it returns is the empty vector, whatever
    the model and the feature values (given that the softmax of nothing
    is nothing). *)
Theorem ComputeProbability_returns_nothing (model : FnnVehicleModel)
    (feature_values probability : list R) :
  Softmax [] false = [] →
  ComputeProbability model feature_values = Done probability →
  probability = [].
Proof.
  intros Hsoft H. unfold ComputeProbability in H.
  case_bool_decide; [injection H as <-; reflexivity|].
  destruct (foldM (layer_step model) ([], []) (seqZ 0 (num_layer model)))
    as [st|] eqn:Hst; [|discriminate].
  injection H as <-.
  rewrite (layers_of_empty _ _ _ Hsoft Hst). reflexivity.
Qed.

(** X18: outside offline mode 2, an evaluation with two or more exits
    that completes without an index out of range has done nothing: the
    probability sequence it got from the network is empty, so nothing is
    appended to the junction's probabilities, and the lane graph has no
    lane sequence, for the blending of the first exit would read
    [probability[idx]] of the empty sequence (given that the softmax of
    nothing is nothing). *)
Theorem several_exits_complete_only_without_lanes (fuel : nat) (flags : Flags)
    (model : FnnVehicleModel) (ego : option PerceptionObstacle)
    (obstacle obstacle' : Obstacle) (log : option DataForLearning)
    (jf : JunctionFeature) (e1 e2 : JunctionExit) (rest : list JunctionExit) :
  Softmax [] false = [] →
  IsInitialized (latest_feature obstacle) = true →
  junction_feature (latest_feature obstacle) = Some jf →
  junction_exit jf = e1 :: e2 :: rest →
  FLAGS_prediction_offline_mode flags ≠ 2%Z →
  Evaluate fuel flags model ego obstacle = Done (obstacle', log) →
  lane_sequence (lane_graph (latest_feature obstacle)) = []
  ∧ log = None
  ∧ junction_mlp_probability <$> junction_feature (latest_feature obstacle')
    = Some (junction_mlp_probability jf)
  ∧ lane_graph (latest_feature obstacle') = lane_graph (latest_feature obstacle)
  ∧ ∃ feature_values : list R,
      ExtractFeatureValues fuel flags ego obstacle [] = Done feature_values
      ∧ ComputeProbability model feature_values = Done [].
Proof.
  intros Hsoft Hinit Hjf Hexits Hmode Heval.
  rewrite (Evaluate_with_exits fuel flags model ego obstacle jf e1 (e2 :: rest))
    in Heval by assumption.
  destruct (ExtractFeatureValues fuel flags ego obstacle []) as [fv|];
    [|discriminate].
  rewrite bind_Done in Heval. unfold exit_probability in Heval.
  rewrite bool_decide_eq_true_2 in Heval
    by (rewrite Hexits; simpl length; lia).
  assert (∀ p, ComputeProbability model fv = Done p → p = []) as Hnil.
  { intros p Hp. unfold ComputeProbability in Hp.
    case_bool_decide; [injection Hp as <-; reflexivity|].
    destruct (foldM (layer_step model) ([], []) (seqZ 0 (num_layer model)))
      as [st|] eqn:Hst; [|discriminate].
    injection Hp as <-. rewrite (layers_of_empty _ _ _ Hsoft Hst). reflexivity. }
  destruct (ComputeProbability model fv) as [p|] eqn:Hp; [|discriminate].
  rewrite (Hnil p eq_refl) in *. clear Hnil.
  rewrite bind_Done in Heval. cbv zeta in Heval.
  simpl junction_exit in Heval. simpl lane_graph in Heval.
  case_bool_decide as Hlanes.
  - injection Heval as <- <-.
    split; [apply nil_length_inv; exact Hlanes|]. split; [reflexivity|].
    split; [simpl; rewrite app_nil_r; reflexivity|].
    split; [reflexivity|]. exists fv. split; [reflexivity | exact Hp].
  - rewrite Hexits in Heval. simpl foldM in Heval.
    rewrite blend_exit_of_nothing in Heval. discriminate.
Qed.

(** X19: every layer after the first reads the output of the layer
    before it: on a layer that fits that output, one turn of the loop
    over the layers gives bias plus weighted sum per neuron with the
    layer's activation, and hands the previous output on as the layer's
    input. *)
Theorem later_layers_read_the_previous_output (model : FnnVehicleModel)
    (input previous : list R) (i : Z) (l : Layer) :
  (0 < i)%Z →
  at_ (layer model) i = Done l →
  layer_fits l previous →
  layer_step model (input, previous) i = Done (previous, spec_layer l previous).
Proof.
  intros Hi Hl Hfit.
  pose proof (layer_step_refines model (input, previous) i l Hl) as H.
  cbv zeta in H. simpl in H.
  rewrite bool_decide_eq_true_2 in H by lia.
  apply H; [left; lia | exact Hfit].
Qed.

End EmptyInput.

Lemma ComputeProbability_returns_nothing_witness :
  ∃ probability : list R,
    ComputeProbability (util := spec_helpers) Samples.hollow_model [5%R]
    = Done probability
    ∧ probability = [].
Proof.
  exists []. split; [reflexivity|].
  apply (ComputeProbability_returns_nothing (util := spec_helpers)
           Samples.hollow_model [5%R] []); reflexivity.
Defined.

(** The sample obstacle with two exits and no lane sequence, with a
    network of another input dimension: the evaluation returns. *)
Lemma sample_run_with_two_exits :
  ∃ n : nat, ∀ fuel : nat, (n ≤ fuel)%nat →
  ∃ obstacle' : Obstacle,
    Evaluate (util := spec_helpers) fuel Samples.online
      Samples.model_of_62_inputs None Samples.at_two_exits_without_lanes
    = Done (obstacle', None).
Proof.
  destruct (ExtractFeatureValues_total (util := spec_helpers) Samples.online
              None Samples.at_two_exits_without_lanes (Point3D.mk 0 0)
              (Samples.junction_of [Samples.exit_ahead; Samples.exit_left]))
    as [n Hn]; [reflexivity | reflexivity | simpl; lra | left; reflexivity |].
  exists n. intros fuel Hfuel.
  destruct (Hn fuel Hfuel) as (v & block & _ & Hlv & _ & _ & Hlb & Hx).
  rewrite (Evaluate_with_exits (util := spec_helpers) fuel Samples.online
             Samples.model_of_62_inputs None Samples.at_two_exits_without_lanes
             (Samples.junction_of [Samples.exit_ahead; Samples.exit_left])
             Samples.exit_ahead [Samples.exit_left]);
    [|reflexivity|reflexivity|reflexivity|simpl; lia].
  rewrite Hx, bind_Done.
  unfold exit_probability, ComputeProbability.
  rewrite bool_decide_eq_true_2 by (simpl; lia).
  rewrite bool_decide_eq_true_2.
  - rewrite bind_Done. eexists. reflexivity.
  - rewrite !length_app, Hlv, Hlb.
    unfold EGO_VEHICLE_FEATURE_SIZE, JUNCTION_FEATURE_SIZE. simpl. lia.
Qed.

Lemma several_exits_complete_only_without_lanes_witness :
  ∃ n : nat, ∀ fuel : nat, (n ≤ fuel)%nat →
  ∃ obstacle' : Obstacle,
    Evaluate (util := spec_helpers) fuel Samples.online
      Samples.model_of_62_inputs None Samples.at_two_exits_without_lanes
    = Done (obstacle', None)
    ∧ junction_mlp_probability <$> junction_feature (latest_feature obstacle')
      = Some [].
Proof.
  destruct sample_run_with_two_exits as [n Hn].
  exists n. intros fuel Hfuel. destruct (Hn fuel Hfuel) as [obstacle' He].
  exists obstacle'. split; [exact He|].
  destruct (several_exits_complete_only_without_lanes (util := spec_helpers)
              fuel Samples.online Samples.model_of_62_inputs None
              Samples.at_two_exits_without_lanes obstacle' None
              (Samples.junction_of [Samples.exit_ahead; Samples.exit_left])
              Samples.exit_ahead Samples.exit_left [])
    as (_ & _ & Hp & _); try reflexivity.
  - simpl. lia.
  - exact He.
  - exact Hp.
Defined.

Lemma later_layers_read_the_previous_output_witness :
  layer_step (util := spec_helpers) Samples.two_layer_model ([], [5%R]) 1
  = Done ([5%R], spec_layer (util := spec_helpers) Samples.identity_layer [5%R]).
Proof.
  apply (later_layers_read_the_previous_output (util := spec_helpers)
           Samples.two_layer_model [] [5%R] 1 Samples.identity_layer).
  - lia.
  - reflexivity.
  - unfold layer_fits. simpl. repeat split.
    + discriminate.
    + intros row Hrow. apply elem_of_cons in Hrow as [->|Hrow];
        [simpl; lia | inversion Hrow].
    + lia.
    + lia.
Defined.

(** ** The feature vector *)

Section FeatureVector.
Context {util : PredictionUtil}.
Local Open Scope R_scope.

(** X10: the feature extraction appends all of its 79 values or none:
    without a position or without a junction feature the vector it is
    given comes back as it was, and otherwise the three obstacle values,
    the four ego values and the 72 junction values follow it, in this
    order. *)
Theorem ExtractFeatureValues_all_or_nothing (fuel : nat) (flags : Flags)
    (ego : option PerceptionObstacle) (obstacle : Obstacle)
    (feature_values extracted : list R) :
  ExtractFeatureValues fuel flags ego obstacle feature_values = Done extracted →
  let f := latest_feature obstacle in
  ((position f = None ∨ junction_feature f = None)
   ∧ extracted = feature_values)
  ∨ ∃ (jf : JunctionFeature) (v block : list R),
      is_Some (position f)
      ∧ junction_feature f = Some jf
      ∧ SetEgoVehicleFeatureValues ego obstacle = Done v
      ∧ SetJunctionFeatureValues fuel flags obstacle = Done block
      ∧ extracted
        = feature_values ++ [speed f; acc f; junction_range jf] ++ v ++ block
      ∧ length extracted = (length feature_values + 79)%nat.
Proof.
  intros H f. unfold f. clear f.
  unfold ExtractFeatureValues, SetObstacleFeatureValues in H.
  destruct (position (latest_feature obstacle)) as [pos|] eqn:Hpos;
    [|injection H as <-; left; auto].
  rewrite bool_decide_eq_false_2 in H by (intros Hne; apply Hne; reflexivity).
  destruct (SetEgoVehicleFeatureValues ego obstacle) as [v|] eqn:Hv;
    [|discriminate].
  rewrite bind_Done in H.
  assert (length v = EGO_VEHICLE_FEATURE_SIZE) as Hlv.
  { unfold SetEgoVehicleFeatureValues in Hv. destruct ego.
    - destruct (bool_decide _) in Hv; [|discriminate].
      injection Hv as <-. reflexivity.
    - injection Hv as <-. reflexivity. }
  rewrite bool_decide_eq_false_2 in H by (intros Hne; apply Hne; exact Hlv).
  destruct (SetJunctionFeatureValues fuel flags obstacle) as [block|] eqn:Hb;
    [|discriminate].
  rewrite bind_Done in H.
  unfold SetJunctionFeatureValues in Hb. rewrite Hpos in Hb.
  destruct (junction_feature (latest_feature obstacle)) as [jf|] eqn:Hjf.
  - pose proof (junction_exits_length _ _ _ _ _ _ _ _
                  length_default_sectors Hb) as Hlen.
    rewrite bool_decide_eq_false_2 in H by (intros Hne; apply Hne; exact Hlen).
    injection H as <-. right.
    exists jf, v, block. split; [eauto|]. split; [reflexivity|].
    split; [reflexivity|]. split; [reflexivity|].
    split; [unfold junction_range_of; rewrite Hjf; reflexivity|].
    rewrite length_app. simpl length. rewrite length_app, Hlv, Hlen.
    unfold EGO_VEHICLE_FEATURE_SIZE, JUNCTION_FEATURE_SIZE. lia.
  - injection Hb as <-. simpl in H. injection H as <-. left. auto.
Qed.

End FeatureVector.

Lemma ExtractFeatureValues_all_or_nothing_witness :
  ∃ n : nat, ∀ fuel : nat, (n ≤ fuel)%nat →
  ∃ extracted : list R,
    ExtractFeatureValues (util := spec_helpers) fuel Samples.online None
      Samples.at_two_exits [] = Done extracted
    ∧ length extracted = 79%nat.
Proof.
  destruct (ExtractFeatureValues_total (util := spec_helpers) Samples.online
              None Samples.at_two_exits (Point3D.mk 0 0)
              (Samples.junction_of [Samples.exit_ahead; Samples.exit_left]))
    as [n Hn]; [reflexivity | reflexivity | simpl; lra | left; reflexivity |].
  exists n. intros fuel Hfuel.
  destruct (Hn fuel Hfuel) as (v & block & _ & _ & _ & _ & _ & Hx).
  eexists. split; [exact Hx|].
  destruct (ExtractFeatureValues_all_or_nothing (util := spec_helpers)
              _ _ _ _ _ _ Hx)
    as [[[Hp|Hj] _] | (jf & v' & b' & _ & _ & _ & _ & _ & Hlen)].
  - discriminate Hp.
  - discriminate Hj.
  - exact Hlen.
Defined.

(** ** The exit map *)

Section ExitMap.
Context {util : PredictionUtil}.
Local Open Scope R_scope.



End ExitMap.


(** ** What [Evaluate] returns, and what it leaves as it was *)

Section EvaluateResults.
Context {util : PredictionUtil}.
Local Open Scope R_scope.

(** X3: [Evaluate] returns at once, with the obstacle as it was and
    nothing logged, when the latest feature is not initialized, has no
    junction feature, or has a junction feature without an exit. *)
Theorem Evaluate_returns_early (fuel : nat) (flags : Flags)
    (model : FnnVehicleModel) (ego : option PerceptionObstacle)
    (obstacle : Obstacle) :
  IsInitialized (latest_feature obstacle) = false
  ∨ junction_feature (latest_feature obstacle) = None
  ∨ (∃ jf, junction_feature (latest_feature obstacle) = Some jf
           ∧ junction_exit jf = []) →
  Evaluate fuel flags model ego obstacle = Done (obstacle, None).
Proof.
  intros [H | [H | (jf & H & Hex)]]; unfold Evaluate.
  - rewrite H. reflexivity.
  - destruct (IsInitialized _); [|reflexivity]. simpl. rewrite H. reflexivity.
  - destruct (IsInitialized _); [|reflexivity]. simpl. rewrite H, Hex.
    reflexivity.
Qed.

(** Started on the empty vector, the feature extraction returns no
    value or 79 values: it appends only after the three size tests. *)
Lemma ExtractFeatureValues_length (fuel : nat) (flags : Flags)
    (ego : option PerceptionObstacle) (obstacle : Obstacle)
    (feature_values : list R) :
  ExtractFeatureValues fuel flags ego obstacle [] = Done feature_values →
  length feature_values = 0%nat ∨ length feature_values = 79%nat.
Proof.
  unfold ExtractFeatureValues. intros H.
  case_bool_decide as H1; [injection H as <-; left; reflexivity|].
  destruct (SetEgoVehicleFeatureValues ego obstacle) as [v|]; [|discriminate].
  rewrite bind_Done in H.
  case_bool_decide as H2; [injection H as <-; left; reflexivity|].
  destruct (SetJunctionFeatureValues fuel flags obstacle) as [block|];
    [|discriminate].
  rewrite bind_Done in H.
  case_bool_decide as H3; [injection H as <-; left; reflexivity|].
  injection H as <-. right.
  simpl app. rewrite !length_app, H1, H2, H3. reflexivity.
Qed.

(** X4: in offline mode 2 [Evaluate] only extracts and logs: the model
    is not consulted, and whenever the evaluation returns, the obstacle
    is as it was and what is logged is the latest feature with the
    extracted feature vector, of no value or of 79 values, under the tag
    "junction".  Without a position it returns, and the vector it logs
    is empty. *)
Theorem Evaluate_offline_mode (fuel : nat) (flags : Flags)
    (model model' : FnnVehicleModel) (ego : option PerceptionObstacle)
    (obstacle : Obstacle) (jf : JunctionFeature) (e : JunctionExit)
    (rest : list JunctionExit) :
  IsInitialized (latest_feature obstacle) = true →
  junction_feature (latest_feature obstacle) = Some jf →
  junction_exit jf = e :: rest →
  FLAGS_prediction_offline_mode flags = 2%Z →
  Evaluate fuel flags model' ego obstacle = Evaluate fuel flags model ego obstacle
  ∧ (position (latest_feature obstacle) = None →
     Evaluate fuel flags model ego obstacle
     = Done (obstacle, Some (latest_feature obstacle, [], "junction"%string)))
  ∧ (∀ (obstacle' : Obstacle) (log : option DataForLearning),
       Evaluate fuel flags model ego obstacle = Done (obstacle', log) →
       obstacle' = obstacle
       ∧ ∃ feature_values : list R,
           ExtractFeatureValues fuel flags ego obstacle [] = Done feature_values
           ∧ log = Some (latest_feature obstacle, feature_values,
                         "junction"%string)
           ∧ (length feature_values = 0%nat ∨ length feature_values = 79%nat)).
Proof.
  intros Hinit Hjf Hexits Hmode.
  assert (∀ m, Evaluate fuel flags m ego obstacle
            = (fv ← ExtractFeatureValues fuel flags ego obstacle [];
               Done (obstacle,
                     Some (latest_feature obstacle, fv, "junction"%string))))
    as Hev.
  { intros m. unfold Evaluate. rewrite Hinit, Hjf. simpl.
    rewrite bool_decide_eq_false_2 by (rewrite Hexits; simpl; lia).
    destruct (ExtractFeatureValues fuel flags ego obstacle []) as [fv|]; simpl;
      [|reflexivity].
    rewrite bool_decide_eq_true_2 by exact Hmode. reflexivity. }
  split; [rewrite !Hev; reflexivity|]. split.
  - intros Hpos. rewrite Hev.
    unfold ExtractFeatureValues, SetObstacleFeatureValues. rewrite Hpos.
    reflexivity.
  - intros obstacle' log Heval. rewrite Hev in Heval.
    destruct (ExtractFeatureValues fuel flags ego obstacle []) as [fv|] eqn:Hx;
      [|discriminate].
    rewrite bind_Done in Heval. injection Heval as <- <-.
    split; [reflexivity|]. exists fv. split; [reflexivity|].
    split; [reflexivity|]. exact (ExtractFeatureValues_length _ _ _ _ _ Hx).
Qed.

(** An evaluation with one exit returns, whatever the model. *)
Lemma Evaluate_single_exit_total (flags : Flags) (model : FnnVehicleModel)
    (ego : option PerceptionObstacle) (obstacle : Obstacle) (pos : Point3D.t)
    (jf : JunctionFeature) (e : JunctionExit) :
  IsInitialized (latest_feature obstacle) = true →
  position (latest_feature obstacle) = Some pos →
  junction_feature (latest_feature obstacle) = Some jf →
  junction_exit jf = [e] →
  FLAGS_prediction_offline_mode flags ≠ 2%Z →
  0 < FLAGS_prediction_trajectory_time_resolution flags →
  ego = None ∨ (0 < history_size obstacle)%Z →
  ∃ n : nat, ∀ fuel : nat, (n ≤ fuel)%nat →
  ∃ obstacle' : Obstacle,
    Evaluate fuel flags model ego obstacle = Done (obstacle', None).
Proof.
  intros Hinit Hpos Hjf Hexits Hmode Hres Hego.
  destruct (ExtractFeatureValues_total flags ego obstacle pos jf
              Hpos Hjf Hres Hego) as [n Hn].
  exists n. intros fuel Hfuel.
  destruct (Hn fuel Hfuel) as (v & block & _ & Hlv & _ & Hb & Hlb & Hx).
  rewrite (Evaluate_with_exits fuel flags model ego obstacle jf e [])
    by assumption.
  rewrite Hx, bind_Done.
  unfold EGO_VEHICLE_FEATURE_SIZE in Hlv.
  destruct v as [|e0 [|e1 [|e2 [|e3 [|]]]]]; try discriminate Hlv.
  rewrite (single_exit_probability model jf e _ _ _ e0 e1 e2 e3 block Hexits Hlb).
  rewrite bind_Done.
  set (p := e0 :: ((λ i, default 0 (sector_field block i 2)) <$> seq 0 11)).
  cbv zeta.
  case_bool_decide as Hlanes; [eauto|].
  destruct (blend_exits_total
              (with_junction_feature (add_junction_mlp_probability p jf)
                 (latest_feature obstacle))
              p (junction_exit (add_junction_mlp_probability p jf)) ∅)
    as (m' & -> & _); [reflexivity|].
  rewrite bind_Done. eauto.
Qed.

(** X5: whenever [Evaluate] returns, it has touched nothing but the
    junction probabilities and the lane sequence probabilities: the
    obstacle's id and history size, the position, velocity, heading,
    speed and acceleration of its latest feature, the junction's id,
    range and exits and the lane segments of every lane sequence are as
    before, and the junction's probability sequence is the old one with
    values appended, never replaced. *)
Theorem Evaluate_frame (fuel : nat) (flags : Flags) (model : FnnVehicleModel)
    (ego : option PerceptionObstacle) (obstacle obstacle' : Obstacle)
    (log : option DataForLearning) :
  Evaluate fuel flags model ego obstacle = Done (obstacle', log) →
  let f := latest_feature obstacle in
  let f' := latest_feature obstacle' in
  id obstacle' = id obstacle
  ∧ history_size obstacle' = history_size obstacle
  ∧ position f' = position f
  ∧ raw_velocity f' = raw_velocity f
  ∧ velocity_heading f' = velocity_heading f
  ∧ speed f' = speed f
  ∧ acc f' = acc f
  ∧ junction_id <$> junction_feature f' = junction_id <$> junction_feature f
  ∧ junction_range <$> junction_feature f' = junction_range <$> junction_feature f
  ∧ junction_exit <$> junction_feature f' = junction_exit <$> junction_feature f
  ∧ (∃ appended : list R,
       junction_mlp_probability <$> junction_feature f'
       = (λ jf, junction_mlp_probability jf ++ appended) <$> junction_feature f)
  ∧ lane_segment <$> lane_sequence (lane_graph f')
    = lane_segment <$> lane_sequence (lane_graph f).
Proof.
  intros Heval f f'. unfold f, f'. clear f f'.
  unfold Evaluate in Heval.
  destruct (IsInitialized (latest_feature obstacle)) eqn:Hinit; simpl in Heval;
    [|injection Heval as <- _; repeat split; auto;
      exists []; destruct (junction_feature _); simpl;
      rewrite ?app_nil_r; reflexivity].
  destruct (junction_feature (latest_feature obstacle)) as [jf|] eqn:Hjf;
    [|injection Heval as <- _; rewrite ?Hjf; repeat split; auto;
      exists []; reflexivity].
  case_bool_decide;
    [injection Heval as <- _; rewrite ?Hjf; repeat split; auto;
     exists []; simpl; rewrite ?app_nil_r; reflexivity|].
  destruct (ExtractFeatureValues fuel flags ego obstacle []) as [fv|];
    simpl in Heval; [|discriminate].
  case_bool_decide;
    [injection Heval as <- _; rewrite ?Hjf; repeat split; auto;
     exists []; simpl; rewrite ?app_nil_r; reflexivity|].
  destruct (exit_probability model jf fv) as [p|]; simpl in Heval; [|discriminate].
  case_bool_decide.
  - injection Heval as <- _. simpl. repeat split; auto. exists p. reflexivity.
  - destruct (foldM _ ∅ (junction_exit jf)) as [m|] eqn:Hm; simpl in Heval;
      [|discriminate].
    injection Heval as <- _. simpl. repeat split; auto.
    + exists p. reflexivity.
    + rewrite <- list_fmap_compose. apply list_fmap_ext.
      intros i s _. simpl. unfold assign_lane_sequence.
      apply scan_lane_segment.
Qed.

End EvaluateResults.

Lemma Evaluate_returns_early_witness :
  Evaluate (util := spec_helpers) 0 Samples.online Samples.identity_model None
    Samples.outside_junction
  = Done (Samples.outside_junction, None).
Proof.
  apply (Evaluate_returns_early (util := spec_helpers)). right. left.
  reflexivity.
Defined.

Lemma Evaluate_offline_mode_witness :
  Evaluate (util := spec_helpers) 1 Samples.offline Samples.identity_model None
    Samples.unlocated
  = Done (Samples.unlocated,
          Some (latest_feature Samples.unlocated, [], "junction"%string)).
Proof.
  destruct (Evaluate_offline_mode (util := spec_helpers) 1 Samples.offline
              Samples.identity_model Samples.identity_model None
              Samples.unlocated (Samples.junction_of [Samples.exit_ahead])
              Samples.exit_ahead [])
    as (_ & H & _); [reflexivity | reflexivity | reflexivity | reflexivity |].
  apply H. reflexivity.
Defined.

Lemma Evaluate_frame_witness :
  ∃ n : nat, ∀ fuel : nat, (n ≤ fuel)%nat →
  ∃ obstacle' : Obstacle,
    Evaluate (util := spec_helpers) fuel Samples.online Samples.identity_model
      None Samples.at_exit_left = Done (obstacle', None)
    ∧ id obstacle' = 1%Z
    ∧ position (latest_feature obstacle') = Some (Point3D.mk 0 0)
    ∧ lane_segment <$> lane_sequence (lane_graph (latest_feature obstacle'))
      = lane_segment <$> [Samples.through_a; Samples.through_elsewhere].
Proof.
  destruct (Evaluate_single_exit_total (util := spec_helpers) Samples.online
              Samples.identity_model None Samples.at_exit_left (Point3D.mk 0 0)
              (Samples.junction_of [Samples.exit_left]) Samples.exit_left)
    as [n Hn]; try reflexivity.
  - simpl. lia.
  - simpl. lra.
  - left. reflexivity.
  - exists n. intros fuel Hfuel. destruct (Hn fuel Hfuel) as [obstacle' He].
    exists obstacle'. split; [exact He|].
    destruct (Evaluate_frame (util := spec_helpers) _ _ _ _ _ _ _ He)
      as (Hid & _ & Hpos & _ & _ & _ & _ & _ & _ & _ & _ & Hseg).
    split; [exact Hid|]. split; [exact Hpos | exact Hseg].
Defined.

Lemma Evaluate_keeps_unmatched_lane_sequences_witness :
  ∃ n : nat, ∀ fuel : nat, (n ≤ fuel)%nat →
  ∃ obstacle' : Obstacle,
    Evaluate (util := spec_helpers) fuel Samples.online Samples.identity_model
      None Samples.at_exit_left = Done (obstacle', None)
    ∧ lane_sequence (lane_graph (latest_feature obstacle')) !! 1%nat
      = Some Samples.through_elsewhere.
Proof.
  destruct (Evaluate_single_exit_total (util := spec_helpers) Samples.online
              Samples.identity_model None Samples.at_exit_left (Point3D.mk 0 0)
              (Samples.junction_of [Samples.exit_left]) Samples.exit_left)
    as [n Hn]; try reflexivity.
  - simpl. lia.
  - simpl. lra.
  - left. reflexivity.
  - exists n. intros fuel Hfuel. destruct (Hn fuel Hfuel) as [obstacle' He].
    exists obstacle'. split; [exact He|].
    apply (Evaluate_keeps_unmatched_lane_sequences (util := spec_helpers)
             _ _ _ _ _ _ _ 1%nat Samples.through_elsewhere He).
    + reflexivity.
    + intros seg jf e Hseg Hjf Hexit.
      injection Hjf as <-.
      apply elem_of_cons in Hseg as [->|Hseg]; [|inversion Hseg].
      apply elem_of_cons in Hexit as [->|Hexit]; [|inversion Hexit].
      discriminate.
Defined.
